(** * ChakraWatch: the threat analyzer, the feed scraper and the article store

    A shallow embedding of [app.py]: the keyword classifier
    ([ThreatAnalyzer.analyze_threat_level]), the IOC and tag extractors
    ([extract_iocs], [_validate_ioc], [extract_tags]), the feed loop of
    [ScraperManager.scrape_rss_feed], and the two store operations
    [DatabaseManager.save_articles] and [DatabaseManager.search_articles].

    Conventions of the model.
    - A Python [str] is a [string]; the texts considered are ASCII, where
      Python's Unicode-aware [lower], [strip], [\b], [\w] and [\d] coincide
      with the ASCII definitions below.
    - Python [int] is [Z]; [//] is [Z.div] (both round towards minus
      infinity).  A Python [float] confidence is the exact rational [Q] whose
      IEEE rounding the interpreter computes.
    - The [re] module is embedded as a backtracking matcher over a small
      regular-expression syntax; each pattern of the source is transcribed
      into that syntax next to its source text.
    - An exception is a [None] (or an [Err]) result. *)

From Stdlib Require Import ZArith QArith Qminmax Qround.
From Stdlib Require Import Ascii String List Bool Lia.
From stdpp Require Import gmap strings list fin_maps sorting.

Local Open Scope string_scope.
Local Open Scope list_scope.

(** ** Characters and strings *)

Module Py.

Definition code (c : ascii) : N := N_of_ascii c.

Definition in_range (lo hi c : ascii) : bool :=
  (code lo <=? code c)%N && (code c <=? code hi)%N.

Definition is_upper (c : ascii) : bool := in_range "A" "Z" c.
Definition is_lower (c : ascii) : bool := in_range "a" "z" c.
Definition is_digit (c : ascii) : bool := in_range "0" "9" c.

(** [\w]: letters, digits and the underscore. *)
Definition is_word (c : ascii) : bool :=
  is_lower c || is_upper c || is_digit c || Ascii.eqb c "_".

(** [str.isspace] on one character: TAB..CR, FS..US and the blank. *)
Definition is_space (c : ascii) : bool :=
  in_range "009" "013" c || in_range "028" "031" c || Ascii.eqb c " ".

Definition lower_char (c : ascii) : ascii :=
  if is_upper c then ascii_of_N (code c + 32) else c.

Definition upper_char (c : ascii) : ascii :=
  if is_lower c then ascii_of_N (code c - 32) else c.

Definition chars (s : string) : list ascii := list_ascii_of_string s.
Definition str (l : list ascii) : string := string_of_list_ascii l.

(** [s.lower()] *)
Definition lower (s : string) : string := str (map lower_char (chars s)).

(** [s.strip()] *)
Fixpoint lstrip_chars (l : list ascii) : list ascii :=
  match l with
  | c :: l' => if is_space c then lstrip_chars l' else l
  | [] => []
  end.

Definition strip (s : string) : string :=
  str (rev (lstrip_chars (rev (lstrip_chars (chars s))))).

(** [s.isdigit()]: non-empty and made of digits only. *)
Definition isdigit (s : string) : bool :=
  match chars s with
  | [] => false
  | l => forallb is_digit l
  end.

(** [int(s)] on a string of decimal digits. *)
Definition digit_val (c : ascii) : Z := Z.of_N (code c) - 48.

Definition int (s : string) : Z :=
  fold_left (fun acc c => 10 * acc + digit_val c)%Z (chars s) 0%Z.

(** [s.split(sep)] for a one-character separator: every separator cuts, empty
    pieces are kept. *)
Fixpoint split_chars (sep : ascii) (cur : list ascii) (l : list ascii)
  : list string :=
  match l with
  | [] => [str (rev cur)]
  | c :: l' =>
      if Ascii.eqb c sep then str (rev cur) :: split_chars sep [] l'
      else split_chars sep (c :: cur) l'
  end.

Definition split (sep : ascii) (s : string) : list string :=
  split_chars sep [] (chars s).

(** [sub in s] on strings. *)
Fixpoint starts_with (p l : list ascii) : bool :=
  match p, l with
  | [], _ => true
  | _ :: _, [] => false
  | a :: p', b :: l' => Ascii.eqb a b && starts_with p' l'
  end.

Fixpoint contains_chars (p l : list ascii) : bool :=
  starts_with p l ||
  match l with
  | [] => false
  | _ :: l' => contains_chars p l'
  end.

Definition contains (sub s : string) : bool :=
  contains_chars (chars sub) (chars s).

(** [sep.join(l)] *)
Fixpoint join (sep : string) (l : list string) : string :=
  match l with
  | [] => ""
  | [x] => x
  | x :: l' => x +:+ sep +:+ join sep l'
  end.

End Py.

(** ** The [re] module *)

Module Re.

Import Py.

(** The pattern syntax the source uses: literals, classes given by ranges,
    [\b], sequence, alternation, greedy bounded or unbounded repetition and
    numbered capturing groups ([(?:...)] needs no constructor). *)
Inductive regex : Type :=
  | Eps
  | Chr (c : ascii)
  | Cls (ranges : list (ascii * ascii))
  | Bnd
  | Seq (a b : regex)
  | Alt (a b : regex)
  | Rep (lo : nat) (hi : option nat) (a : regex)
  | Grp (i : nat) (a : regex).

(** A position of the matcher in the subject: the index, the character
    before it, what is left, and the groups captured so far (latest first). *)
Record mstate : Type := MState {
  m_pos : nat;
  m_prev : option ascii;
  m_rest : list ascii;
  m_caps : list (nat * string)
}.

Definition word_opt (o : option ascii) : bool :=
  match o with Some c => is_word c | None => false end.

Definition at_boundary (st : mstate) : bool :=
  xorb (word_opt (m_prev st)) (word_opt (head (m_rest st))).

Definition in_ranges (rs : list (ascii * ascii)) (c : ascii) : bool :=
  existsb (fun r => in_range (fst r) (snd r) c) rs.

(** With [re.IGNORECASE] ([ic]) a character also matches through its
    lower-case and upper-case forms. *)
Definition chr_match (ic : bool) (c x : ascii) : bool :=
  Ascii.eqb c x || (ic && Ascii.eqb (lower_char c) (lower_char x)).

Definition cls_match (ic : bool) (rs : list (ascii * ascii)) (x : ascii)
  : bool :=
  in_ranges rs x ||
  (ic && (in_ranges rs (lower_char x) || in_ranges rs (upper_char x))).

Definition step (p : ascii -> bool) (st : mstate)
    (k : mstate -> option mstate) : option mstate :=
  match m_rest st with
  | x :: rest' =>
      if p x then k (MState (S (m_pos st)) (Some x) rest' (m_caps st))
      else None
  | [] => None
  end.

Definition set_cap (i : nat) (st st' : mstate) : mstate :=
  MState (m_pos st') (m_prev st') (m_rest st')
         ((i, str (take (m_pos st' - m_pos st) (m_rest st))) :: m_caps st').

Definition more_allowed (hi : option nat) (cnt : nat) : bool :=
  match hi with Some h => (cnt <? h)%nat | None => true end.

(** A greedy repetition [{lo,hi}] of [body], which has matched [cnt] times
    so far: one more iteration is tried first, stopping here second.  An
    iteration must consume a character, so the characters left ([fuel])
    bound the iterations to come. *)
Fixpoint rep_loop (body : mstate -> (mstate -> option mstate) -> option mstate)
    (lo : nat) (hi : option nat) (k : mstate -> option mstate)
    (fuel cnt : nat) (st : mstate) {struct fuel} : option mstate :=
  let stop := if (lo <=? cnt)%nat then k st else None in
  match fuel with
  | O => stop
  | S fuel' =>
      if more_allowed hi cnt then
        match body st (fun st' => if (m_pos st <? m_pos st')%nat
                                  then rep_loop body lo hi k fuel' (S cnt) st'
                                  else None) with
        | Some s => Some s
        | None => stop
        end
      else stop
  end.

(** The backtracking matcher, in continuation-passing style: [exec ic r st k]
    tries the ways [r] can match at [st] in the priority order of [re]
    (left alternative first, as many repetitions as possible first) and
    returns the first one the continuation [k] accepts. *)
Fixpoint exec (ic : bool) (r : regex) (st : mstate)
    (k : mstate -> option mstate) {struct r} : option mstate :=
  match r with
  | Eps => k st
  | Chr c => step (chr_match ic c) st k
  | Cls rs => step (cls_match ic rs) st k
  | Bnd => if at_boundary st then k st else None
  | Seq a b => exec ic a st (fun st' => exec ic b st' k)
  | Alt a b =>
      match exec ic a st k with
      | Some s => Some s
      | None => exec ic b st k
      end
  | Rep lo hi a => rep_loop (exec ic a) lo hi k (length (m_rest st)) 0 st
  | Grp i a => exec ic a st (fun st' => k (set_cap i st st'))
  end.

(** The number of capturing groups of a pattern. *)
Fixpoint ngroups (r : regex) : nat :=
  match r with
  | Eps | Chr _ | Cls _ | Bnd => 0
  | Seq a b | Alt a b => ngroups a + ngroups b
  | Rep _ _ a => ngroups a
  | Grp _ a => S (ngroups a)
  end.

(** What [re.findall] puts in its list for one match: the matched text when
    the pattern has no group, the group when it has one, the tuple of all
    groups otherwise (a group that did not take part is the empty string). *)
Inductive pyval : Type :=
  | PStr (s : string)
  | PTuple (l : list string).

Definition group (st : mstate) (i : nat) : string :=
  match List.find (fun p => Nat.eqb (fst p) i) (m_caps st) with
  | Some p => snd p
  | None => ""
  end.

Definition match_value (r : regex) (start : mstate) (fin : mstate) : pyval :=
  match ngroups r with
  | 0 => PStr (str (take (m_pos fin - m_pos start) (m_rest start)))
  | 1 => PStr (group fin 1)
  | n => PTuple (map (group fin) (seq 1 n))
  end.

(** One attempt at a given start position. *)
Definition match_at (ic : bool) (r : regex) (pos : nat)
    (prev : option ascii) (rest : list ascii) : option mstate :=
  exec ic r (MState pos prev rest []) Some.

(** The scan of [re.findall]: matches are searched from left to right and do
    not overlap; [skip] counts the characters of the last match still to be
    passed over.  (After an empty match the scan moves on by one character;
    no pattern of the source matches the empty string.) *)
Fixpoint scan (ic : bool) (r : regex) (skip : nat) (pos : nat)
    (prev : option ascii) (rest : list ascii) {struct rest} : list pyval :=
  match skip with
  | S skip' =>
      match rest with
      | [] => []
      | c :: rest' => scan ic r skip' (S pos) (Some c) rest'
      end
  | O =>
      match match_at ic r pos prev rest with
      | Some fin =>
          match_value r (MState pos prev rest []) fin ::
          match rest with
          | [] => []
          | c :: rest' =>
              scan ic r (m_pos fin - pos - 1) (S pos) (Some c) rest'
          end
      | None =>
          match rest with
          | [] => []
          | c :: rest' => scan ic r 0 (S pos) (Some c) rest'
          end
      end
  end.

(** [re.findall(pattern, text, flags)] *)
Definition findall (ic : bool) (r : regex) (text : string) : list pyval :=
  scan ic r 0 0 None (chars text).

(** [re.search(pattern, text, flags)], as a truth value. *)
Fixpoint search_from (ic : bool) (r : regex) (pos : nat)
    (prev : option ascii) (rest : list ascii) {struct rest} : bool :=
  match match_at ic r pos prev rest with
  | Some _ => true
  | None =>
      match rest with
      | [] => false
      | c :: rest' => search_from ic r (S pos) (Some c) rest'
      end
  end.

Definition search (ic : bool) (r : regex) (text : string) : bool :=
  search_from ic r 0 None (chars text).

(** Pattern builders. *)
Fixpoint lit_chars (l : list ascii) : regex :=
  match l with
  | [] => Eps
  | c :: l' => Seq (Chr c) (lit_chars l')
  end.

(** A pattern matching exactly the text [s]: what [re.escape(s)] denotes. *)
Definition escape (s : string) : regex := lit_chars (chars s).

Fixpoint alts (rs : list regex) : regex :=
  match rs with
  | [] => Eps
  | [r] => r
  | r :: rs' => Alt r (alts rs')
  end.

Fixpoint seqs (rs : list regex) : regex :=
  match rs with
  | [] => Eps
  | [r] => r
  | r :: rs' => Seq r (seqs rs')
  end.

Definition opt (r : regex) : regex := Rep 0 (Some 1) r.
Definition star (r : regex) : regex := Rep 0 None r.
Definition plus (r : regex) : regex := Rep 1 None r.

(** The texts a pattern can match, whatever surrounds them: [\b] and the
    groups take no character. *)
#[warnings="-register-all"]
Inductive lang (ic : bool) : regex -> list ascii -> Prop :=
  | lang_eps : lang ic Eps []
  | lang_chr c x : chr_match ic c x = true -> lang ic (Chr c) [x]
  | lang_cls rs x : cls_match ic rs x = true -> lang ic (Cls rs) [x]
  | lang_bnd : lang ic Bnd []
  | lang_seq a b u v :
      lang ic a u -> lang ic b v -> lang ic (Seq a b) (u ++ v)
  | lang_alt_l a b u : lang ic a u -> lang ic (Alt a b) u
  | lang_alt_r a b u : lang ic b u -> lang ic (Alt a b) u
  | lang_rep lo hi a ws :
      Forall (lang ic a) ws ->
      lo <= length ws ->
      (forall h, hi = Some h -> length ws <= h) ->
      lang ic (Rep lo hi a) (concat ws)
  | lang_grp i a u : lang ic a u -> lang ic (Grp i a) u.

(** [st'] is [st] after the characters [w]. *)
Definition reaches (st : mstate) (w : list ascii) (st' : mstate) : Prop :=
  m_rest st = w ++ m_rest st' /\ m_pos st' = m_pos st + length w.

End Re.

(** ** Values handed around by the analyzer *)

Module PyVal.

Import Py Re.

(** [len(v)] *)
Definition len (v : pyval) : Z :=
  match v with
  | PStr s => Z.of_nat (String.length s)
  | PTuple l => Z.of_nat (length l)
  end.

(** ['.' in v]: a substring test on a string, an element test on a tuple. *)
Definition has (x : string) (v : pyval) : bool :=
  match v with
  | PStr s => contains x s
  | PTuple l => existsb (String.eqb x) l
  end.

Definition hex_digit (n : N) : ascii :=
  nth (N.to_nat n) (chars "0123456789abcdef") "0"%char.

Definition repr_char (quote c : ascii) : list ascii :=
  if Ascii.eqb c "\" then ["\"; "\"]%char
  else if Ascii.eqb c quote then ["\"%char; quote]
  else if Ascii.eqb c "010" then ["\"; "n"]%char
  else if Ascii.eqb c "013" then ["\"; "r"]%char
  else if Ascii.eqb c "009" then ["\"; "t"]%char
  else if (code c <? 32)%N || (127 <=? code c)%N
       then ["\"; "x"; hex_digit (code c / 16); hex_digit (code c mod 16)]%char
  else [c].

(** [repr(s)] of a string: single quotes, unless the string has a single
    quote and no double quote. *)
Definition repr (s : string) : string :=
  let l := chars s in
  let quote : ascii :=
    if existsb (Ascii.eqb "'") l && negb (existsb (Ascii.eqb "034") l)
    then "034"%char else "'"%char in
  str (quote :: concat (map (repr_char quote) l) ++ [quote]).

(** What an f-string writes for [{v}]: the string itself, [repr] of a tuple. *)
Definition format (v : pyval) : string :=
  match v with
  | PStr s => s
  | PTuple [x] => "(" +:+ repr x +:+ ",)"
  | PTuple l => "(" +:+ join ", " (map repr l) +:+ ")"
  end.

End PyVal.

(** ** Configuration *)

Module Settings.

Definition MAX_ARTICLES_PER_SOURCE : nat := 20.

Definition THREAT_KEYWORDS : list (string * list string) :=
  [ ("critical",
       [ "zero-day"; "0day"; "critical vulnerability"; "ransomware";
         "data breach"; "supply chain attack"; "rce"; "remote code execution";
         "critical security flaw"; "emergency patch"; "actively exploited" ]);
    ("high",
       [ "vulnerability"; "exploit"; "malware"; "phishing"; "apt";
         "backdoor"; "trojan"; "sql injection"; "privilege escalation";
         "security flaw"; "code execution"; "buffer overflow" ]);
    ("medium",
       [ "security update"; "patch"; "warning"; "alert"; "mitigation";
         "workaround"; "security advisory"; "authentication bypass";
         "information disclosure"; "denial of service" ]);
    ("low",
       [ "security news"; "announcement"; "report"; "advisory";
         "awareness"; "security tip"; "best practices" ]) ].

End Settings.

Inductive ThreatLevel : Type := LOW | MEDIUM | HIGH | CRITICAL.

Definition ThreatLevel_value (l : ThreatLevel) : string :=
  match l with
  | LOW => "low"
  | MEDIUM => "medium"
  | HIGH => "high"
  | CRITICAL => "critical"
  end.

(** ** The threat analyzer *)

Module ThreatAnalyzer.

Import Py Re.

Record t : Type := Build {
  threat_keywords : list (string * list string);
  ioc_patterns : list (string * regex);
  tag_patterns : list (string * regex)
}.

Definition digit09 : regex := Cls [("0", "9")]%char.
Definition alnum : regex := Cls [("a", "z"); ("A", "Z"); ("0", "9")]%char.
Definition alnum_dash : regex :=
  Cls [("a", "z"); ("A", "Z"); ("0", "9"); ("-", "-")]%char.
Definition alpha : regex := Cls [("a", "z"); ("A", "Z")]%char.
Definition hexdig : regex := Cls [("a", "f"); ("A", "F"); ("0", "9")]%char.

(** [\b(?:[0-9]{1,3}\.){3}[0-9]{1,3}\b] *)
Definition ip_pattern : regex :=
  seqs [ Bnd;
         Rep 3 (Some 3) (Seq (Rep 1 (Some 3) digit09) (Chr "."));
         Rep 1 (Some 3) digit09;
         Bnd ].

(** [[a-zA-Z0-9]([a-zA-Z0-9\-]{0,61}[a-zA-Z0-9])?], the group numbered [i] *)
Definition label (i : nat) : regex :=
  Seq alnum (opt (Grp i (Seq (Rep 0 (Some 61) alnum_dash) alnum))).

(** [\b[a-zA-Z0-9]([a-zA-Z0-9\-]{0,61}[a-zA-Z0-9])?(\.[a-zA-Z0-9]([a-zA-Z0-9\-]{0,61}[a-zA-Z0-9])?)*\.[a-zA-Z]{2,}\b] *)
Definition domain_pattern : regex :=
  seqs [ Bnd;
         label 1;
         star (Grp 2 (Seq (Chr ".") (label 3)));
         Chr ".";
         Rep 2 None alpha;
         Bnd ].

(** [\b[a-fA-F0-9]{32}\b] and [\b[a-fA-F0-9]{64}\b] *)
Definition hash_pattern (n : nat) : regex :=
  seqs [ Bnd; Rep n (Some n) hexdig; Bnd ].

(** [CVE-\d{4}-\d{4,}] *)
Definition cve_pattern : regex :=
  seqs [ escape "CVE-"; Rep 4 (Some 4) digit09; Chr "-"; Rep 4 None digit09 ].

(** [\b[A-Za-z0-9._%+-]+@[A-Za-z0-9.-]+\.[A-Z|a-z]{2,}\b] *)
Definition email_pattern : regex :=
  seqs [ Bnd;
         plus (Cls [("A", "Z"); ("a", "z"); ("0", "9"); (".", "."); ("_", "_");
                    ("%", "%"); ("+", "+"); ("-", "-")]%char);
         Chr "@";
         plus (Cls [("A", "Z"); ("a", "z"); ("0", "9"); (".", ".");
                    ("-", "-")]%char);
         Chr ".";
         Rep 2 None (Cls [("A", "Z"); ("|", "|"); ("a", "z")]%char);
         Bnd ].

(** [\b(w1|w2|...)\b] *)
Definition tag_pattern (words : list string) : regex :=
  seqs [ Bnd; Grp 1 (alts (map escape words)); Bnd ].

(** [ThreatAnalyzer.__init__] *)
Definition init : t := {|
  threat_keywords := Settings.THREAT_KEYWORDS;
  ioc_patterns :=
    [ ("ip", ip_pattern);
      ("domain", domain_pattern);
      ("hash_md5", hash_pattern 32);
      ("hash_sha256", hash_pattern 64);
      ("cve", cve_pattern);
      ("email", email_pattern) ];
  tag_patterns :=
    [ ("malware",
         tag_pattern ["malware"; "virus"; "trojan"; "spyware"; "rootkit"; "worm"]);
      ("ransomware", tag_pattern ["ransomware"; "crypto"; "encryption"]);
      ("phishing", tag_pattern ["phishing"; "social engineering"; "scam"]);
      ("vulnerability",
         tag_pattern ["vulnerability"; "cve"; "exploit"; "zero-day"]);
      ("data-breach", tag_pattern ["data breach"; "leak"; "stolen data"]);
      ("apt", tag_pattern ["apt"; "advanced persistent threat"]);
      ("mobile", tag_pattern ["android"; "ios"; "mobile"; "smartphone"]);
      ("cloud", tag_pattern ["cloud"; "aws"; "azure"; "google cloud"]);
      ("iot", tag_pattern ["iot"; "internet of things"]);
      ("cryptocurrency",
         tag_pattern ["bitcoin"; "cryptocurrency"; "crypto"; "blockchain"]) ]
|}.

(** *** [analyze_threat_level] *)

(** [f"{title} {content}"] *)
Definition combined (title content : string) : string :=
  title +:+ " " +:+ content.

(** [r'\b' + re.escape(keyword.lower()) + r'\b'] *)
Definition keyword_pattern (keyword : string) : regex :=
  Seq Bnd (Seq (escape (lower keyword)) Bnd).

(** [len(re.findall(..., text))] for one keyword *)
Definition matches (keyword text : string) : Z :=
  Z.of_nat (length (findall false (keyword_pattern keyword) text)).

(** The inner loop: [score = 0; for keyword in keywords: score += matches]. *)
Definition level_score (keywords : list string) (text : string) : Z :=
  fold_left (fun score keyword => score + matches keyword text)%Z keywords 0%Z.

(** The outer loop: [scores[level] = score] for every item of the taxonomy. *)
Definition compute_scores (kws : list (string * list string)) (text : string)
  : gmap string Z :=
  fold_left (fun scores item => <[item.1 := level_score item.2 text]> scores)
            kws ∅.

(** The decision chain; a missing key of [scores] ([KeyError]) is [None]. *)
Definition decide_level (scores : gmap string Z) : option (ThreatLevel * Q) :=
  critical ← scores !! "critical";
  if (0 <? critical)%Z
  then Some (CRITICAL, Qmin (inject_Z critical / 3) 1)
  else
    high ← scores !! "high";
    if (0 <? high)%Z
    then Some (HIGH, Qmin (inject_Z high / 2) 1)
    else
      medium ← scores !! "medium";
      if (0 <? medium)%Z
      then Some (MEDIUM, Qmin (inject_Z medium / (3 # 2)) 1)
      else Some (LOW, 3 # 10).

Definition analyze_threat_level (self : t) (title content : string)
  : option (ThreatLevel * Q) :=
  let text := lower (combined title content) in
  decide_level (compute_scores (threat_keywords self) text).

(** *** [_validate_ioc] and [extract_iocs] *)

Definition octet_ok (part : string) : bool :=
  (0 <=? int part)%Z && (int part <=? 255)%Z.

(** [value.split('.')] on a tuple raises [AttributeError]: [None]. *)
Definition _validate_ioc (ioc_type : string) (value : pyval) : option bool :=
  if String.eqb ioc_type "ip" then
    match value with
    | PStr s => Some (forallb octet_ok (List.filter isdigit (split "." s)))
    | PTuple _ => None
    end
  else if String.eqb ioc_type "domain" then
    Some ((4 <? PyVal.len value)%Z && PyVal.has "." value)
  else Some true.

(** [f"{ioc_type}:{match}"] *)
Definition ioc_entry (ioc_type : string) (m : pyval) : string :=
  ioc_type +:+ ":" +:+ PyVal.format m.

(** [for match in matches: if self._validate_ioc(...): iocs.append(...)] *)
Fixpoint collect_matches (ioc_type : string) (ms : list pyval)
    (iocs : list string) : option (list string) :=
  match ms with
  | [] => Some iocs
  | m :: ms' =>
      ok ← _validate_ioc ioc_type m;
      collect_matches ioc_type ms'
        (if ok : bool then iocs ++ [ioc_entry ioc_type m] else iocs)
  end.

(** [for ioc_type, pattern in self.ioc_patterns.items(): ...] *)
Fixpoint collect_patterns (pats : list (string * regex)) (text : string)
    (iocs : list string) : option (list string) :=
  match pats with
  | [] => Some iocs
  | (ioc_type, pattern) :: pats' =>
      iocs' ← collect_matches ioc_type (findall true pattern text) iocs;
      collect_patterns pats' text iocs'
  end.

(** [list(set(iocs))]: the elements of the set, in the order the set gives. *)
Definition list_set (iocs : list string) : list string :=
  elements (list_to_set iocs : gset string).

Definition extract_iocs (self : t) (text : string) : option (list string) :=
  iocs ← collect_patterns (ioc_patterns self) text [];
  Some (list_set iocs).

(** One to three digits. *)
Definition octet_text (a : list ascii) : Prop :=
  forallb is_digit a = true /\ 1 <= length a <= 3.

(** The numbers between the dots of a dotted quad. *)
Definition octets (m : string) : list Z := map int (split "." m).

(** What the loops of [extract_iocs] gather when the validator returns: for
    every detector in turn, the entries of the matches it accepts. *)
Definition accepts (ioc_type : string) (m : pyval) : bool :=
  default false (_validate_ioc ioc_type m).

Definition candidates (self : t) (text : string) : list string :=
  flat_map (fun item =>
              map (ioc_entry item.1)
                  (List.filter (accepts item.1) (findall true item.2 text)))
           (ioc_patterns self).

(** *** [extract_tags] *)

Fixpoint collect_tags (pats : list (string * regex)) (text : string)
    (tags : list string) : list string :=
  match pats with
  | [] => tags
  | (tag, pattern) :: pats' =>
      collect_tags pats' text
        (if search true pattern text then tags ++ [tag] else tags)
  end.

Definition extract_tags (self : t) (title content : string) : list string :=
  let text := lower (combined title content) in
  collect_tags (tag_patterns self) text [].

(** *** The classifier in the words of its specification *)

(** The character before the position reached after [kw]. *)
Definition last_char (kw : list ascii) (prev : option ascii) : option ascii :=
  match last kw with
  | Some c => Some c
  | None => prev
  end.

(** The keyword [kw] sits at the head of [rest], with a word boundary before
    it ([prev] is the character before) and after it. *)
Definition whole_word_at (kw : list ascii) (prev : option ascii)
    (rest : list ascii) : bool :=
  xorb (word_opt prev) (word_opt (head rest))
  && starts_with kw rest
  && xorb (word_opt (last_char kw prev))
          (word_opt (head (drop (length kw) rest))).

(** The keyword occurs somewhere in the text as a whole word or phrase. *)
Definition occurs_in (kw text : string) : Prop :=
  exists pre post,
    chars text = pre ++ post /\
    whole_word_at (chars kw) (last pre) post = true.

(** The occurrences counted from left to right, an occurrence starting after
    the end of the one before. *)
Fixpoint count_whole_words (kw : list ascii) (skip : nat)
    (prev : option ascii) (rest : list ascii) {struct rest} : nat :=
  match skip with
  | S skip' =>
      match rest with
      | [] => 0
      | c :: rest' => count_whole_words kw skip' (Some c) rest'
      end
  | O =>
      let later (skip' : nat) :=
        match rest with
        | [] => 0
        | c :: rest' => count_whole_words kw skip' (Some c) rest'
        end in
      if whole_word_at kw prev rest then S (later (length kw - 1))
      else later 0
  end.

Definition occurrences (kw text : string) : Z :=
  Z.of_nat (count_whole_words (chars kw) 0 None (chars text)).

Definition tier_keywords (level : string) : list string :=
  default [] (snd <$> List.find (fun item => String.eqb item.1 level)
                                Settings.THREAT_KEYWORDS).

(** The count of a tier: the occurrences of all its keywords. *)
Definition tier_count (level text : string) : Z :=
  fold_right Z.add 0%Z (map (fun kw => occurrences kw text)
                            (tier_keywords level)).

(** The tiers in priority order, each with its level and its normalizer. *)
Definition tiers : list (string * ThreatLevel * Q) :=
  [ ("critical", CRITICAL, 3%Q); ("high", HIGH, 2%Q);
    ("medium", MEDIUM, 3 # 2) ].

(** The first tier with a positive count decides; none gives [low], 0.3. *)
Fixpoint first_tier (ts : list (string * ThreatLevel * Q)) (text : string)
  : ThreatLevel * Q :=
  match ts with
  | [] => (LOW, 3 # 10)
  | (name, level, normalizer) :: ts' =>
      let count := tier_count name text in
      if (0 <? count)%Z
      then (level, Qmin (inject_Z count / normalizer) 1)
      else first_tier ts' text
  end.

Definition classify (title content : string) : ThreatLevel * Q :=
  first_tier tiers (lower (combined title content)).

(** The analyzer with another list of low-tier keywords. *)
Definition with_low_keywords (low : list string) (self : t) : t := {|
  threat_keywords :=
    map (fun item => if String.eqb item.1 "low" then ("low", low) else item)
        (threat_keywords self);
  ioc_patterns := ioc_patterns self;
  tag_patterns := tag_patterns self
|}.

(** *** The tag vocabulary of the specification *)
Definition tag_vocabulary : list string :=
  [ "malware"; "ransomware"; "phishing"; "vulnerability"; "data-breach";
    "apt"; "mobile"; "cloud"; "iot"; "cryptocurrency" ].

End ThreatAnalyzer.

(** ** Records exchanged between the scraper and the store *)

(** The dictionary built for one scraped article.  A key that may be absent
    is an [option]; the store reads most keys with [dict.get] and a default,
    and [url] by subscription. *)
Record ArticleData : Type := {
  ad_title : option string;
  ad_summary : option string;
  ad_content : option string;
  ad_url : option string;
  ad_image_url : option string;
  ad_source_name : option string;
  ad_author : option string;
  ad_published_date : option Z;
  ad_threat_level : option string;
  ad_confidence_score : option Q;
  ad_tags : option (list string);
  ad_iocs : option (list string)
}.

(** ** The feed scraper *)

Module ScraperManager.

Import Py.

(** One entry of a parsed feed, as [scrape_rss_feed] reads it: the three
    texts through [entry.get(key, '')], and the publication time when
    [published_parsed] is there and is a valid date. *)
Record Entry : Type := {
  e_title : option string;
  e_summary : option string;
  e_link : option string;
  e_published : option Z
}.

Section Feed.

(** [BeautifulSoup(summary, 'html.parser').get_text(strip=True)] *)
Variable get_text : string -> string.
(** [datetime.now()] while the [i]-th entry of the feed is handled *)
Variable now : nat -> Z.
Variable analyzer : ThreatAnalyzer.t.

Definition get (o : option string) : string := default "" o.

(** [not s] on a string *)
Definition falsy (s : string) : bool := String.eqb s "".

(** The body of the loop for the [i]-th entry: [None] when the entry is
    skipped, by [continue] or by the handler of the inner [try]. *)
Definition parse_entry (source_name : string) (i : nat) (entry : Entry)
  : option ArticleData :=
  let title := strip (get (e_title entry)) in
  let summary := strip (get (e_summary entry)) in
  let url := strip (get (e_link entry)) in
  if falsy title || falsy url then None
  else
    let published_date := default (now i) (e_published entry) in
    let summary := if falsy summary then summary else get_text summary in
    let content := summary in
    '(threat_level, confidence) ←
       ThreatAnalyzer.analyze_threat_level analyzer title content;
    iocs ← ThreatAnalyzer.extract_iocs analyzer
             (ThreatAnalyzer.combined title content);
    let tags := ThreatAnalyzer.extract_tags analyzer title content in
    Some {| ad_title := Some title;
            ad_summary := Some summary;
            ad_content := Some content;
            ad_url := Some url;
            ad_image_url := None;
            ad_source_name := Some source_name;
            ad_author := None;
            ad_published_date := Some published_date;
            ad_threat_level := Some (ThreatLevel_value threat_level);
            ad_confidence_score := Some confidence;
            ad_tags := Some tags;
            ad_iocs := Some iocs |}.

(** [for entry in entries: ...; articles.append(...)] *)
Fixpoint parse_entries (source_name : string) (i : nat)
    (entries : list Entry) (articles : list ArticleData)
  : list ArticleData :=
  match entries with
  | [] => articles
  | entry :: entries' =>
      parse_entries source_name (S i) entries'
        match parse_entry source_name i entry with
        | Some a => articles ++ [a]
        | None => articles
        end
  end.

(** [scrape_rss_feed], from the parsed feed on: [feed] is [None] when the
    request or the parse raised, which the outer handlers turn into [[]]. *)
Definition scrape_rss_feed (source_name : string)
    (feed : option (list Entry)) : list ArticleData :=
  match feed with
  | None => []
  | Some [] => []
  | Some entries =>
      parse_entries source_name 0
        (take Settings.MAX_ARTICLES_PER_SOURCE entries) []
  end.

(** The entry passes the guard [if not title or not url: continue]. *)
Definition kept (entry : Entry) : bool :=
  negb (falsy (strip (get (e_title entry)))
        || falsy (strip (get (e_link entry)))).

End Feed.

(** The drop rule in the words of the specification: an entry is dropped
    exactly when it is missing both its title and its link. *)
Definition drop_rule_as_stated : Prop :=
  forall get_text now source i entry,
    parse_entry get_text now ThreatAnalyzer.init source i entry = None <->
    strip (get (e_title entry)) = "" /\ strip (get (e_link entry)) = "".

End ScraperManager.

(** ** JSON text *)

Module Json.

Import Py.

(** One character of a string as [json.dumps] writes it, [ensure_ascii]
    being on: the quote and the backslash escaped, a character outside
    [' '..'~'] by its short escape or its code. *)
Definition escape_char (c : ascii) : list ascii :=
  if Ascii.eqb c "034" then ["\"; "034"]%char
  else if Ascii.eqb c "\" then ["\"; "\"]%char
  else if Ascii.eqb c "010" then ["\"; "n"]%char
  else if Ascii.eqb c "013" then ["\"; "r"]%char
  else if Ascii.eqb c "009" then ["\"; "t"]%char
  else if Ascii.eqb c "008" then ["\"; "b"]%char
  else if Ascii.eqb c "012" then ["\"; "f"]%char
  else if (code c <? 32)%N || (126 <? code c)%N
       then ["\"; "u"; "0"; "0";
             PyVal.hex_digit (code c / 16); PyVal.hex_digit (code c mod 16)]%char
  else [c].

(** [json.dumps(s)] of a string *)
Definition dumps_str (s : string) : string :=
  str ("034"%char :: concat (map escape_char (chars s)) ++ ["034"%char]).

(** [json.dumps(l)] of a list of strings *)
Definition dumps_list (l : list string) : string :=
  "[" +:+ join ", " (map dumps_str l) +:+ "]".

End Json.

(** ** The store *)

Module DatabaseManager.

Import Py.

(** A row of [threat_articles].  [save_articles] assigns to [tags] and
    [iocs] the text [json.dumps(list)], and the [JSON] column type encodes
    what it is given once more, so the column holds the JSON string whose
    content is that text ([iocs_column] below).  Reading the column decodes
    once, and [search_articles] applies [json.loads] to the result: the
    answer carries the list again, which is what the row keeps. *)
Record ThreatArticle : Type := {
  id : Z;
  title : string;
  summary : string;
  content : string;
  url : string;
  image_url : option string;
  source_name : string;
  author : option string;
  published_date : Z;
  scraped_date : Z;
  threat_level : string;
  confidence_score : Q;
  tags : list string;
  iocs : list string;
  views : Z;
  bookmarked : bool
}.

(** The text stored in the [tags] and [iocs] columns. *)
Definition tags_column (r : ThreatArticle) : string :=
  Json.dumps_str (Json.dumps_list (tags r)).

Definition iocs_column (r : ThreatArticle) : string :=
  Json.dumps_str (Json.dumps_list (iocs r)).

Inductive error : Type :=
  | KeyError
  | IntegrityError
  | OperationalError
  | ZeroDivisionError.

Inductive outcome (A : Type) : Type :=
  | Ok (a : A)
  | Raise (e : error).
Arguments Ok {A} a.
Arguments Raise {A} e.

(** *** [save_articles] *)

Section Save.

(** The storage engine: [fails k] tells whether the [k]-th statement sent to
    it (a SELECT, an INSERT or the COMMIT, counted from 0) fails. *)
Variable fails : nat -> bool.
(** [datetime.now()] on the Python side, [now()] on the SQL side *)
Variable py_now : Z.
Variable sql_now : Z.

(** A transient [ThreatArticle()] filled from the dictionary: the columns
    with a server-side default ([id], [scraped_date], [views], [bookmarked])
    get their value at the INSERT. *)
Definition new_article (a : ArticleData) : ThreatArticle := {|
  id := 0;
  title := default "" (ad_title a);
  summary := default "" (ad_summary a);
  content := default "" (ad_content a);
  url := default "" (ad_url a);
  image_url := ad_image_url a;
  source_name := default "" (ad_source_name a);
  author := ad_author a;
  published_date := default py_now (ad_published_date a);
  scraped_date := 0;
  threat_level := default "medium" (ad_threat_level a);
  confidence_score := default (1 # 2) (ad_confidence_score a);
  tags := default [] (ad_tags a);
  iocs := default [] (ad_iocs a);
  views := 0;
  bookmarked := false
|}.

(** [session.query(ThreatArticle).filter(ThreatArticle.url == u).first()]:
    the session does not autoflush, so the SELECT sees the table and none
    of the articles added to the session. *)
Definition first_by_url (table : list ThreatArticle) (u : string)
  : option ThreatArticle :=
  List.find (fun r => String.eqb (url r) u) table.

(** The loop over [articles_data].  The state is the list of articles added
    to the session and [saved_count]; [k] counts the statements sent. *)
Fixpoint save_loop (table : list ThreatArticle) (batch : list ArticleData)
    (added : list ThreatArticle) (saved_count : Z) (k : nat)
  : outcome (list ThreatArticle * Z) * nat :=
  match batch with
  | [] => (Ok (added, saved_count), k)
  | article_data :: batch' =>
      match ad_url article_data with
      | None => (Raise KeyError, k)
      | Some u =>
          if fails k then (Raise OperationalError, S k)
          else
            match first_by_url table u with
            | Some _ => save_loop table batch' added saved_count (S k)
            | None =>
                save_loop table batch'
                  (added ++ [new_article article_data])
                  (saved_count + 1)%Z (S k)
            end
      end
  end.

Definition next_id (table : list ThreatArticle) : Z :=
  fold_right Z.max 0%Z (map id table) + 1.

(** The row an INSERT writes for a transient article: [id] is the next row
    id, [scraped_date] the server-side default, [views] and [bookmarked]
    their column defaults. *)
Definition stored (i : Z) (a : ThreatArticle) : ThreatArticle := {|
  id := i;
  title := title a;
  summary := summary a;
  content := content a;
  url := url a;
  image_url := image_url a;
  source_name := source_name a;
  author := author a;
  published_date := published_date a;
  scraped_date := sql_now;
  threat_level := threat_level a;
  confidence_score := confidence_score a;
  tags := tags a;
  iocs := iocs a;
  views := 0;
  bookmarked := false
|}.

(** One INSERT inside the transaction: the UNIQUE index on [url] rejects a
    second row with the same [url]. *)
Definition insert_row (work : list ThreatArticle) (a : ThreatArticle)
  : outcome (list ThreatArticle) :=
  match first_by_url work (url a) with
  | Some _ => Raise IntegrityError
  | None => Ok (work ++ [stored (next_id work) a])
  end.

(** The flush of [session.commit()]: the added articles are inserted in the
    order they were added, into the transaction's view [work] of the table. *)
Fixpoint flush (work : list ThreatArticle) (added : list ThreatArticle)
    (k : nat) : outcome (list ThreatArticle) * nat :=
  match added with
  | [] => (Ok work, k)
  | a :: added' =>
      if fails k then (Raise OperationalError, S k)
      else
        match insert_row work a with
        | Ok work' => flush work' added' (S k)
        | Raise e => (Raise e, S k)
        end
  end.

(** [session.commit()]: the flush, then the COMMIT that makes [work] the
    table. *)
Definition commit (table : list ThreatArticle) (added : list ThreatArticle)
    (k : nat) : outcome (list ThreatArticle) * nat :=
  match flush table added k with
  | (Ok work, k') =>
      if fails k' then (Raise OperationalError, S k') else (Ok work, S k')
  | (Raise e, k') => (Raise e, k')
  end.

(** The result of a call: what the caller gets (the count, or the exception
    re-raised after [session.rollback()]), the table afterwards, and the
    number of statements the engine received. *)
Record saved : Type := Saved {
  returned : outcome Z;
  table_after : list ThreatArticle;
  statements : nat
}.

Definition save_articles (table : list ThreatArticle)
    (articles_data : list ArticleData) : saved :=
  match save_loop table articles_data [] 0%Z 0 with
  | (Ok (added, saved_count), k) =>
      match commit table added k with
      | (Ok table', k') => Saved (Ok saved_count) table' k'
      | (Raise e, k') => Saved (Raise e) table k'
      end
  | (Raise e, k) => Saved (Raise e) table k
  end.

(** The record is new to the table: its [url] is there and no row has it. *)
Definition is_new (table : list ThreatArticle) (a : ArticleData) : bool :=
  match ad_url a with
  | Some u =>
      match first_by_url table u with
      | Some _ => false
      | None => true
      end
  | None => false
  end.

End Save.

(** A storage engine that never fails. *)
Definition reliable : nat -> bool := fun _ => false.

(** *** [search_articles] *)

Record SearchFilters : Type := {
  keywords : option (list string);
  threat_levels : option (list string);
  sources : option (list string);
  date_from : option Z;
  date_to : option Z;
  has_iocs : option bool
}.

Record PaginatedResponse : Type := {
  items : list ThreatArticle;
  total : Z;
  page : Z;
  per_page : Z;
  pages : Z;
  has_next : bool;
  has_prev : bool
}.

(** SQL [LIKE]: [%] stands for any run of characters, [_] for any one
    character, and letters compare without case. *)
Fixpoint like (pattern subject : list ascii) {struct pattern} : bool :=
  match pattern with
  | [] => match subject with [] => true | _ :: _ => false end
  | c :: pattern' =>
      if Ascii.eqb c "%" then
        (fix any (subject : list ascii) : bool :=
           like pattern' subject ||
           match subject with
           | [] => false
           | _ :: subject' => any subject'
           end) subject
      else
        match subject with
        | [] => false
        | x :: subject' =>
            (Ascii.eqb c "_" || Ascii.eqb (lower_char c) (lower_char x))
            && like pattern' subject'
        end
  end.

(** [column.ilike(pattern)], rendered [lower(column) LIKE lower(pattern)] *)
Definition ilike (column pattern : string) : bool :=
  like (chars (lower pattern)) (chars (lower column)).

(** [column.in_(values)] *)
Definition in_ (column : string) (values : list string) : bool :=
  existsb (String.eqb column) values.

(** The condition one keyword adds, on [f"%{keyword}%"]. *)
Definition keyword_condition (keyword : string) (r : ThreatArticle) : bool :=
  let keyword_like := "%" +:+ keyword +:+ "%" in
  ilike (title r) keyword_like
  || ilike (summary r) keyword_like
  || ilike (content r) keyword_like.

(** The list [conditions]; a filter that is [None] or empty adds nothing.
    The literal ['[]'] of the last condition is bound as a plain string and
    compared with the text in the column. *)
Definition conditions (filters : SearchFilters)
  : list (ThreatArticle -> bool) :=
  match keywords filters with
  | Some ((_ :: _) as kws) =>
      [fun r => existsb (fun keyword => keyword_condition keyword r) kws]
  | _ => []
  end ++
  match threat_levels filters with
  | Some ((_ :: _) as levels) => [fun r => in_ (threat_level r) levels]
  | _ => []
  end ++
  match sources filters with
  | Some ((_ :: _) as srcs) => [fun r => in_ (source_name r) srcs]
  | _ => []
  end ++
  match date_from filters with
  | Some d => [fun r => (d <=? published_date r)%Z]
  | None => []
  end ++
  match date_to filters with
  | Some d => [fun r => (published_date r <=? d)%Z]
  | None => []
  end ++
  match has_iocs filters with
  | Some true => [fun r => negb (String.eqb (iocs_column r) "[]")]
  | Some false => [fun r => String.eqb (iocs_column r) "[]"]
  | None => []
  end.

(** [query.filter(and_( *conditions))] *)
Definition apply_filters (filters : SearchFilters)
    (table : list ThreatArticle) : list ThreatArticle :=
  List.filter (fun r => forallb (fun c => c r) (conditions filters)) table.

(** [order_by(desc(published_date))]; SQL leaves the order of rows with
    equal dates open, the model keeps them in table order. *)
Definition newer_first (a b : ThreatArticle) : Prop :=
  (published_date b <= published_date a)%Z.

#[export] Instance newer_first_dec (a b : ThreatArticle)
  : Decision (newer_first a b).
Proof. unfold newer_first. apply _. Defined.

Definition order_by_desc (rows : list ThreatArticle) : list ThreatArticle :=
  merge_sort newer_first rows.

(** [OFFSET n] and [LIMIT n]: a negative offset is no offset, a negative
    limit is no limit. *)
Definition offset_ (n : Z) (rows : list ThreatArticle) : list ThreatArticle :=
  drop (Z.to_nat n) rows.

Definition limit_ (n : Z) (rows : list ThreatArticle) : list ThreatArticle :=
  if (n <? 0)%Z then rows else take (Z.to_nat n) rows.

Definition search_articles (table : list ThreatArticle)
    (filters : SearchFilters) (page per_page : Z)
  : outcome PaginatedResponse :=
  let query := apply_filters filters table in
  let total := Z.of_nat (length query) in
  let query := order_by_desc query in
  let offset := ((page - 1) * per_page)%Z in
  let articles := limit_ per_page (offset_ offset query) in
  if (per_page =? 0)%Z then Raise ZeroDivisionError
  else
    let pages := ((total + per_page - 1) / per_page)%Z in
    Ok {| items := articles;
          total := total;
          page := page;
          per_page := per_page;
          pages := pages;
          has_next := (page <? pages)%Z;
          has_prev := (1 <? page)%Z |}.

(** *** The filter, category by category *)

(** The keyword test of the specification: the keyword is a substring of the
    title, the summary or the content, letter case apart. *)
Definition icontains (keyword text : string) : bool :=
  contains (lower keyword) (lower text).

Definition keyword_in (keyword : string) (r : ThreatArticle) : bool :=
  icontains keyword (title r)
  || icontains keyword (summary r)
  || icontains keyword (content r).

(** The IOC-presence test of the specification: the stored list is
    non-empty when [true] is asked for, empty when [false] is. *)
Definition iocs_present (wanted : bool) (r : ThreatArticle) : bool :=
  xorb wanted (bool_decide (iocs r = [])).

(** The IOC-presence test of the query: the text in the column differs from
    ['[]'] when [true] is asked for, equals it when [false] is. *)
Definition iocs_condition (wanted : bool) (r : ThreatArticle) : bool :=
  xorb wanted (String.eqb (iocs_column r) "[]").

(** The conjunction of the categories supplied, for a given keyword test and
    a given IOC-presence test. *)
Definition satisfies (keyword_test : string -> ThreatArticle -> bool)
    (iocs_test : bool -> ThreatArticle -> bool)
    (filters : SearchFilters) (r : ThreatArticle) : bool :=
  match keywords filters with
  | Some ((_ :: _) as kws) =>
      existsb (fun keyword => keyword_test keyword r) kws
  | _ => true
  end
  && match threat_levels filters with
     | Some ((_ :: _) as levels) => in_ (threat_level r) levels
     | _ => true
     end
  && match sources filters with
     | Some ((_ :: _) as srcs) => in_ (source_name r) srcs
     | _ => true
     end
  && match date_from filters with
     | Some d => (d <=? published_date r)%Z
     | None => true
     end
  && match date_to filters with
     | Some d => (published_date r <=? d)%Z
     | None => true
     end
  && match has_iocs filters with
     | Some wanted => iocs_test wanted r
     | None => true
     end.

(** The query in the words of the specification: the rows that satisfy the
    conjunction, a keyword being tested as a substring and the presence of
    IOCs on the stored list. *)
Definition query_as_stated : Prop :=
  forall table filters r,
    r ∈ apply_filters filters table <->
    r ∈ table /\ satisfies keyword_in iocs_present filters r = true.

(** The keyword has none of the wildcards of [LIKE]. *)
Definition wildcard_free (keyword : string) : bool :=
  forallb (fun c => negb (Ascii.eqb c "%" || Ascii.eqb c "_")) (chars keyword).

End DatabaseManager.

(** ** The page scraper and the loop over the sources *)

Module Sources.

Import Py ScraperManager.

(** One value of [Settings.THREAT_SOURCES], as the scraper reads it: [url]
    by subscription, [enabled] and [type] through [dict.get]. *)
Record SourceConfig : Type := {
  name : option string;
  url : option string;
  enabled : option bool;
  type : option string
}.

Definition rss_source (display url : string) : SourceConfig :=
  {| name := Some display; url := Some url; enabled := Some true;
     type := Some "rss" |}.

Definition THREAT_SOURCES : list (string * SourceConfig) :=
  [ ("security_affairs",
       rss_source "Security Affairs" "https://securityaffairs.com/feed");
    ("bleeping_computer",
       rss_source "BleepingComputer" "https://www.bleepingcomputer.com/feed/");
    ("hacker_news_rss",
       rss_source "The Hacker News"
                  "https://feeds.feedburner.com/TheHackersNews");
    ("cyware", rss_source "Cyware" "https://cyware.com/allnews.rss") ].

(** What [scrape_html_source] reads in one candidate container of the
    parsed page: the first heading ([h1] to [h4]) with its stripped text and
    the [href] of the first link inside it, the [href] of the first link of
    the container, the stripped text of the first paragraph (or
    description block), and the [src] of the first image.  An element that
    is not there is [None]; an attribute that is not there is [None] in the
    element. *)
Record Heading : Type := {
  h_text : string;
  h_link : option (option string)
}.

Record Container : Type := {
  c_heading : option Heading;
  c_link : option (option string);
  c_summary : option string;
  c_img : option (option string)
}.

(** A parsed page: the [article] elements, and the [div] elements whose
    class hints at a post. *)
Record Page : Type := {
  articles : list Container;
  divs : list Container
}.

Section Scrape.

Variable get_text : string -> string.
(** [datetime.now()] while the [i]-th item of a source is handled *)
Variable now : string -> nat -> Z.
(** [urllib.parse.urljoin] *)
Variable urljoin : string -> string -> string.
(** The network and the parsers: what the GET of a URL gives once parsed as
    a feed or as a page; [None] when the request or the parse raises. *)
Variable rss_feed : string -> option (list Entry).
Variable html_page : string -> option Page.
Variable analyzer : ThreatAnalyzer.t.

(** The body of the loop of [scrape_html_source] for the [i]-th container. *)
Definition parse_container (source_name base : string) (i : nat)
    (container : Container) : option ArticleData :=
  title_elem ← c_heading container;
  link_elem ← match h_link title_elem with
               | Some a => Some a
               | None => c_link container
               end;
  let title := h_text title_elem in
  let url := urljoin base (default "" link_elem) in
  let summary := default "" (c_summary container) in
  let image_url :=
    (fun src => urljoin base (default "" src)) <$> c_img container in
  let content := summary in
  '(threat_level, confidence) ←
     ThreatAnalyzer.analyze_threat_level analyzer title content;
  iocs ← ThreatAnalyzer.extract_iocs analyzer
           (ThreatAnalyzer.combined title content);
  let tags := ThreatAnalyzer.extract_tags analyzer title content in
  Some {| ad_title := Some title;
          ad_summary := Some summary;
          ad_content := Some content;
          ad_url := Some url;
          ad_image_url := image_url;
          ad_source_name := Some source_name;
          ad_author := None;
          ad_published_date := Some (now source_name i);
          ad_threat_level := Some (ThreatLevel_value threat_level);
          ad_confidence_score := Some confidence;
          ad_tags := Some tags;
          ad_iocs := Some iocs |}.

Fixpoint parse_containers (source_name base : string) (i : nat)
    (containers : list Container) (found : list ArticleData)
  : list ArticleData :=
  match containers with
  | [] => found
  | container :: containers' =>
      parse_containers source_name base (S i) containers'
        match parse_container source_name base i container with
        | Some a => found ++ [a]
        | None => found
        end
  end.

(** [soup.find_all('article') or soup.find_all('div', class_=...)] *)
Definition article_containers (page : Page) : list Container :=
  match articles page with
  | [] => divs page
  | _ :: _ => articles page
  end.

(** [scrape_html_source]: a missing [url] key, a failed request and a failed
    parse all end in the handlers that return [[]]. *)
Definition scrape_html_source (source_name : string) (config : SourceConfig)
  : list ArticleData :=
  match url config with
  | None => []
  | Some base =>
      match html_page base with
      | None => []
      | Some page =>
          parse_containers source_name base 0
            (take Settings.MAX_ARTICLES_PER_SOURCE (article_containers page))
            []
      end
  end.

(** [scrape_rss_feed] on a configuration: the feed behind [config['url']]. *)
Definition scrape_rss_source (source_name : string) (config : SourceConfig)
  : list ArticleData :=
  scrape_rss_feed get_text (now source_name) analyzer source_name
    (url config ≫= rss_feed).

(** [scrape_all_sources]: the loop over the items of the configuration. *)
Fixpoint scrape_sources (sources : list (string * SourceConfig))
    (all_articles : list ArticleData) : list ArticleData :=
  match sources with
  | [] => all_articles
  | (source_name, config) :: sources' =>
      if negb (default true (enabled config))
      then scrape_sources sources' all_articles
      else
        let found :=
          if bool_decide (type config = Some "rss")
          then scrape_rss_source source_name config
          else scrape_html_source source_name config in
        scrape_sources sources' (all_articles ++ found)
  end.

Definition scrape_all_sources (sources : list (string * SourceConfig))
  : list ArticleData :=
  scrape_sources sources [].

(** The articles one source gives, when it is enabled. *)
Definition source_articles (item : string * SourceConfig)
  : list ArticleData :=
  if negb (default true (enabled item.2)) then []
  else if bool_decide (type item.2 = Some "rss")
       then scrape_rss_source item.1 item.2
       else scrape_html_source item.1 item.2.

(** The container has a heading and a link, in the heading or outside. *)
Definition usable (container : Container) : bool :=
  match c_heading container with
  | Some h =>
      match h_link h, c_link container with
      | None, None => false
      | _, _ => true
      end
  | None => false
  end.

End Scrape.

(** What an article built by the feed loop holds. *)
Definition well_formed (source : string) (a : ArticleData) : Prop :=
  exists title url summary level confidence date,
    ad_title a = Some title /\ title <> ""
    /\ ad_url a = Some url /\ url <> ""
    /\ ad_summary a = Some summary /\ ad_content a = Some summary
    /\ ad_source_name a = Some source
    /\ ad_published_date a = Some date
    /\ ad_threat_level a = Some level
    /\ level ∈ ["low"; "medium"; "high"; "critical"]
    /\ ad_confidence_score a = Some confidence
    /\ (0 < confidence /\ confidence <= 1)%Q.

End Sources.

(** ** Pages *)

Module Paging.

Import DatabaseManager.

(** The items of page [p]; none when the call raises. *)
Definition page_items (table : list ThreatArticle) (filters : SearchFilters)
    (per_page p : Z) : list ThreatArticle :=
  match search_articles table filters p per_page with
  | Ok resp => items resp
  | Raise _ => []
  end.

(** The page numbers 1, ..., n. *)
Definition page_numbers (n : Z) : list Z :=
  map (fun i => Z.of_nat (S i)) (seq 0 (Z.to_nat n)).

(** The filters without their keywords. *)
Definition without_keywords (filters : SearchFilters) : SearchFilters :=
  {| keywords := None;
     threat_levels := threat_levels filters;
     sources := sources filters;
     date_from := date_from filters;
     date_to := date_to filters;
     has_iocs := has_iocs filters |}.

(** The filters without their IOC-presence filter. *)
Definition without_has_iocs (filters : SearchFilters) : SearchFilters :=
  {| keywords := keywords filters;
     threat_levels := threat_levels filters;
     sources := sources filters;
     date_from := date_from filters;
     date_to := date_to filters;
     has_iocs := None |}.

End Paging.

(** ** The key of a record *)

Module Keys.

(** The [url] a record is stored under: [article_data.get('url', '')]. *)
Definition url_of (a : ArticleData) : string := default "" (ad_url a).

End Keys.

(** ** Hexadecimal digits *)

Module Hex.

Import Re.

(** A character of the class [[a-fA-F0-9]]. *)
Definition hex_char (x : ascii) : bool :=
  in_ranges [("a", "f"); ("A", "F"); ("0", "9")]%char x.

End Hex.

(** ** Statistics *)

Module Statistics.

Import DatabaseManager.

(** [session.query(column, func.count(id)).group_by(column).all()], then the
    dictionary [{key: count for key, count in ...}]: the number of rows for
    each value of the column that occurs. *)
Definition group_count (column : ThreatArticle -> string)
    (table : list ThreatArticle) : gmap string Z :=
  fold_left (fun groups r =>
               <[column r := (default 0 (groups !! column r) + 1)%Z]> groups)
            table ∅.

Record Stats : Type := {
  total_articles : Z;
  threat_distribution : gmap string Z;
  source_distribution : gmap string Z;
  articles_with_iocs : Z;
  last_updated : Z
}.

(** [get_statistics]; [now] is [datetime.now()].  The [iocs] column of a
    stored row is never NULL, which leaves the comparison with ['[]']. *)
Definition get_statistics (now : Z) (table : list ThreatArticle) : Stats := {|
  total_articles := Z.of_nat (length table);
  threat_distribution := group_count threat_level table;
  source_distribution := group_count source_name table;
  articles_with_iocs :=
    Z.of_nat (length (List.filter
                        (fun r => negb (String.eqb (iocs_column r) "[]"))
                        table));
  last_updated := now
|}.

(** The number of rows whose column has the value [k]. *)
Definition count_rows (column : ThreatArticle -> string) (k : string)
    (table : list ThreatArticle) : Z :=
  Z.of_nat (length (List.filter (fun r => String.eqb (column r) k) table)).

End Statistics.

(** ** The endpoints and the background task *)

Module App.

Import Py DatabaseManager.

(** The exceptions a handler lets through: those of [error], the
    [TypeError] of [re] on a value that is no string, the [AttributeError]
    of a method a value does not have, and the [OverflowError] of the
    SQLite driver on an integer it cannot bind. *)
Inductive exception : Type :=
  | Raised (e : error)
  | TypeError
  | AttributeError
  | OverflowError.

(** What an endpoint answers: its value, the 422 of a query parameter out of
    its declared bounds, or the exception of the handler. *)
Inductive response (A : Type) : Type :=
  | Answer (a : A)
  | Unprocessable
  | Failed (e : exception).
Arguments Answer {A} a.
Arguments Unprocessable {A}.
Arguments Failed {A} e.

(** [page: int = Query(1, ge=1)] and
    [per_page: int = Query(20, ge=1, le=100)] *)
Definition query_params (page per_page : option Z) : option (Z * Z) :=
  let page := default 1%Z page in
  let per_page := default 20%Z per_page in
  if (1 <=? page)%Z && (1 <=? per_page)%Z && (per_page <=? 100)%Z
  then Some (page, per_page)
  else None.

Definition no_filters : SearchFilters :=
  {| keywords := None; threat_levels := None; sources := None;
     date_from := None; date_to := None; has_iocs := None |}.

(** The filters [get_articles] builds: a parameter that is absent or empty
    sets nothing. *)
Definition articles_filters (threat_level source : option string)
  : SearchFilters :=
  {| keywords := None;
     threat_levels :=
       match threat_level with
       | Some l => if String.eqb l "" then None else Some [l]
       | None => None
       end;
     sources :=
       match source with
       | Some s => if String.eqb s "" then None else Some [s]
       | None => None
       end;
     date_from := None; date_to := None; has_iocs := None |}.

Definition of_outcome {A} (o : outcome A) : response A :=
  match o with
  | Ok a => Answer a
  | Raise e => Failed (Raised e)
  end.

(** The integers the SQLite driver binds: those of 64 bits. *)
Definition binds (n : Z) : bool :=
  (- 2 ^ 63 <=? n)%Z && (n <=? 2 ^ 63 - 1)%Z.

(** [db_manager.search_articles(filters, page, per_page)] on the engine: the
    COUNT statement, then the SELECT with the offset and [per_page] bound as
    its OFFSET and LIMIT.  [fails k] tells whether the engine fails on the
    [k]-th of the two statements; an exception goes through the [finally]
    to the caller. *)
Definition run_search (fails : nat -> bool) (table : list ThreatArticle)
    (filters : SearchFilters) (page per_page : Z)
  : response PaginatedResponse :=
  let offset := ((page - 1) * per_page)%Z in
  if fails 0 then Failed (Raised OperationalError)
  else if negb (binds offset && binds per_page) then Failed OverflowError
  else if fails 1 then Failed (Raised OperationalError)
  else of_outcome (search_articles table filters page per_page).

(** [GET /articles] *)
Definition get_articles (fails : nat -> bool) (table : list ThreatArticle)
    (page per_page : option Z) (threat_level source : option string)
  : response PaginatedResponse :=
  match query_params page per_page with
  | None => Unprocessable
  | Some (page, per_page) =>
      run_search fails table (articles_filters threat_level source)
        page per_page
  end.

(** [POST /search] *)
Definition search_endpoint (fails : nat -> bool) (table : list ThreatArticle)
    (filters : SearchFilters) (page per_page : option Z)
  : response PaginatedResponse :=
  match query_params page per_page with
  | None => Unprocessable
  | Some (page, per_page) => run_search fails table filters page per_page
  end.

(** The answer of [POST /analyze]. *)
Record Analysis : Type := {
  a_threat_level : string;
  a_confidence_score : Q;
  a_iocs : list string;
  a_tags : list string
}.

(** A value of the request body, which is declared [dict] and so may hold
    any JSON value under a key: a string, or a value that is none (null, a
    boolean, a number, an array, an object). *)
Inductive json : Type :=
  | JString (s : string)
  | JNull
  | JBool (b : bool)
  | JNumber (n : Q)
  | JArray
  | JObject.

(** [analyze_text]: [request] is the value under ["text"], when there.
    [analyze_threat_level] formats the text into an f-string, which any
    value allows, and its result on a value that is no string is lost to the
    [TypeError] [re.findall] raises in [extract_iocs]. *)
Definition analyze_text (request : option json) : response Analysis :=
  let text := default (JString "") request in
  let analyzer := ThreatAnalyzer.init in
  match text with
  | JString text =>
      match ThreatAnalyzer.analyze_threat_level analyzer "" text with
      | None => Failed (Raised KeyError)
      | Some (threat_level, confidence) =>
          match ThreatAnalyzer.extract_iocs analyzer text with
          | None => Failed AttributeError
          | Some iocs =>
              let tags := ThreatAnalyzer.extract_tags analyzer "" text in
              Answer {| a_threat_level := ThreatLevel_value threat_level;
                        a_confidence_score := confidence;
                        a_iocs := iocs;
                        a_tags := tags |}
          end
      end
  | _ => Failed TypeError
  end.

(** The background task [scrape_all_sources]: the articles scraped are
    saved when there are any; an exception is logged and goes no further.
    The result is the table afterwards. *)
Definition scrape_all_sources (fails : nat -> bool) (py_now sql_now : Z)
    (scraped : list ArticleData) (table : list ThreatArticle)
  : list ThreatArticle :=
  match scraped with
  | [] => table
  | _ :: _ => table_after (save_articles fails py_now sql_now table scraped)
  end.

End App.

(** * Properties *)

(** ** The matcher *)

Module ReFacts.

Import Py Re.

Lemma reaches_refl st : reaches st [] st.
Proof. split; [reflexivity | simpl; lia]. Qed.

Lemma reaches_trans st1 u st2 v st3 :
  reaches st1 u st2 -> reaches st2 v st3 -> reaches st1 (u ++ v) st3.
Proof.
  intros [R1 P1] [R2 P2]. split.
  - rewrite R1, R2. apply app_assoc.
  - rewrite P2, P1, length_app. lia.
Qed.

Lemma reaches_set_cap i st0 st w st' :
  reaches st w st' -> reaches st w (set_cap i st0 st').
Proof. intros [R1 P1]. split; assumption. Qed.

(** Whatever a repetition returns went through its continuation, after a
    number of iterations within the bounds. *)
Lemma rep_loop_sound body (P : list ascii -> Prop) lo hi k :
  (forall st k' fin, body st k' = Some fin ->
     exists w st', P w /\ reaches st w st' /\ k' st' = Some fin) ->
  forall fuel cnt st fin,
    rep_loop body lo hi k fuel cnt st = Some fin ->
    exists ws st',
      Forall P ws /\ reaches st (concat ws) st' /\
      lo <= cnt + length ws /\
      (forall h, hi = Some h -> cnt <= h -> cnt + length ws <= h) /\
      k st' = Some fin.
Proof.
  intros Hbody.
  assert (Hstop : forall cnt st fin,
    (if (lo <=? cnt)%nat then k st else None) = Some fin ->
    exists ws st',
      Forall P ws /\ reaches st (concat ws) st' /\
      lo <= cnt + length ws /\
      (forall h, hi = Some h -> cnt <= h -> cnt + length ws <= h) /\
      k st' = Some fin).
  { intros cnt st fin H. destruct (Nat.leb_spec lo cnt); [|discriminate].
    exists [], st. simpl. repeat split; auto using reaches_refl; lia. }
  induction fuel as [|fuel IH]; intros cnt st fin H; simpl in H.
  - auto.
  - destruct (more_allowed hi cnt) eqn:Hmore; [|auto].
    destruct (body st _) as [s|] eqn:Hb; [|auto].
    injection H as ->.
    apply Hbody in Hb as (w & st1 & Hw & Hr & Hk).
    destruct (_ <? _)%nat; [|discriminate].
    apply IH in Hk as (ws & st' & Hws & Hr' & Hlo & Hhi & Hk).
    exists (w :: ws), st'. simpl. repeat split.
    + constructor; assumption.
    + apply (reaches_trans _ _ _ _ _ Hr Hr').
    + apply (reaches_trans _ _ _ _ _ Hr Hr').
    + lia.
    + intros h Hh Hle. subst hi. simpl in Hmore.
      apply Nat.ltb_lt in Hmore. specialize (Hhi h eq_refl). lia.
    + assumption.
Qed.

(** Soundness of the matcher: a result was accepted by the continuation at
    a state reached through a text of the pattern. *)
Lemma exec_sound ic r : forall st k fin,
  exec ic r st k = Some fin ->
  exists w st', lang ic r w /\ reaches st w st' /\ k st' = Some fin.
Proof.
  induction r as [|c|rs| |a IHa b IHb|a IHa b IHb|lo hi a IHa|i a IHa];
    intros st k fin H; simpl in H.
  - exists [], st. auto using lang_eps, reaches_refl.
  - unfold step in H. destruct (m_rest st) as [|x rest'] eqn:Hrest; [discriminate|].
    destruct (chr_match ic c x) eqn:Hc; [|discriminate].
    eexists [x], _. split; [by constructor|]. split; [|exact H].
    split; simpl; [assumption|lia].
  - unfold step in H. destruct (m_rest st) as [|x rest'] eqn:Hrest; [discriminate|].
    destruct (cls_match ic rs x) eqn:Hc; [|discriminate].
    eexists [x], _. split; [by constructor|]. split; [|exact H].
    split; simpl; [assumption|lia].
  - destruct (at_boundary st); [|discriminate].
    exists [], st. auto using lang_bnd, reaches_refl.
  - apply IHa in H as (u & st1 & Hu & Hr1 & H).
    apply IHb in H as (v & st2 & Hv & Hr2 & H).
    exists (u ++ v), st2. split; [by constructor|].
    split; [exact (reaches_trans _ _ _ _ _ Hr1 Hr2)|assumption].
  - destruct (exec ic a st k) as [s|] eqn:Ha.
    + injection H as ->. apply IHa in Ha as (u & st1 & Hu & Hr & Hk).
      exists u, st1. auto using lang_alt_l.
    + apply IHb in H as (u & st1 & Hu & Hr & Hk).
      exists u, st1. auto using lang_alt_r.
  - apply (rep_loop_sound _ (lang ic a)) in H
      as (ws & st' & Hws & Hr & Hlo & Hhi & Hk); [|exact IHa].
    exists (concat ws), st'. split; [|auto].
    constructor; [assumption|lia|]. intros h Hh. specialize (Hhi h Hh). lia.
  - apply IHa in H as (u & st1 & Hu & Hr & Hk).
    exists u, (set_cap i st st1).
    auto using lang_grp, reaches_set_cap.
Qed.

(** Every element of [findall]'s list is the value of a match found at some
    position of the text. *)
Lemma scan_inv ic r v : forall rest skip pos prev,
  v ∈ scan ic r skip pos prev rest ->
  exists pos' prev' rest' fin,
    match_at ic r pos' prev' rest' = Some fin /\
    v = match_value r (MState pos' prev' rest' []) fin.
Proof.
  induction rest as [|c rest IH]; intros skip pos prev Hin; simpl in Hin.
  - destruct skip; [|by apply elem_of_nil in Hin].
    destruct (match_at ic r pos prev []) as [fin|] eqn:Hm;
      [|by apply elem_of_nil in Hin].
    apply list_elem_of_singleton in Hin. eauto 6.
  - destruct skip as [|skip]; [|eauto].
    destruct (match_at ic r pos prev (c :: rest)) as [fin|] eqn:Hm; [|eauto].
    apply elem_of_cons in Hin as [->|Hin]; eauto 6.
Qed.

(** A pattern without groups yields strings, each a text of the pattern. *)
Lemma findall_nogroup ic r text v :
  ngroups r = 0 ->
  v ∈ findall ic r text ->
  exists w, v = PStr (str w) /\ lang ic r w.
Proof.
  intros Hg Hin. apply scan_inv in Hin as (pos & prev & rest & fin & Hm & ->).
  unfold match_at in Hm.
  apply exec_sound in Hm as (w & st' & Hw & [Hr Hp] & Hk).
  injection Hk as <-. simpl in Hr, Hp.
  exists w. split; [|assumption].
  unfold match_value. rewrite Hg. simpl. rewrite Hp, Hr.
  replace (pos + length w - pos) with (length w) by lia.
  by rewrite take_app_length.
Qed.

(** On the character classes of the patterns, ignoring case changes
    nothing for digits and dots. *)
Lemma digit_class x :
  cls_match true [("0", "9")]%char x = true -> is_digit x = true.
Proof.
  destruct x as [[] [] [] [] [] [] [] []]; vm_compute; congruence.
Qed.

Lemma dot_char x : chr_match true "." x = true -> x = "."%char.
Proof.
  destruct x as [[] [] [] [] [] [] [] []]; vm_compute; congruence.
Qed.

(** A pattern with [n >= 2] groups yields tuples of [n] strings. *)
Lemma findall_groups ic r text v n :
  ngroups r = S (S n) ->
  v ∈ findall ic r text ->
  exists l, v = PTuple l /\ length l = S (S n).
Proof.
  intros Hg Hin. apply scan_inv in Hin as (pos & prev & rest & fin & Hm & ->).
  unfold match_value. rewrite Hg. eexists. split; [reflexivity|].
  by rewrite length_map, length_seq.
Qed.

End ReFacts.

(** ** The keyword classifier *)

Module AnalyzerFacts.

Import Py Re ThreatAnalyzer.

Lemma last_char_cons c l prev :
  last_char (c :: l) prev = last_char l (Some c).
Proof.
  unfold last_char. destruct l as [|d l]; [reflexivity|].
  change (last (c :: d :: l)) with (last (d :: l)).
  destruct (last (d :: l)) eqn:E; [reflexivity|].
  by apply last_None in E.
Qed.

(** A literal, matched case-sensitively, is a prefix test. *)
Lemma exec_lit l : forall st k,
  exec false (lit_chars l) st k
  = if starts_with l (m_rest st)
    then k (MState (m_pos st + length l) (last_char l (m_prev st))
                   (drop (length l) (m_rest st)) (m_caps st))
    else None.
Proof.
  induction l as [|c l IH]; intros [pos prev rest caps] k; simpl.
  - by rewrite Nat.add_0_r.
  - unfold step. simpl. destruct rest as [|x rest]; [reflexivity|].
    unfold chr_match. simpl. rewrite orb_false_r.
    destruct (Ascii.eqb_spec c x) as [->|]; [|reflexivity].
    rewrite IH. simpl. rewrite last_char_cons, Nat.add_succ_r. reflexivity.
Qed.

(** The pattern [\bkw\b] matches at a position exactly when the keyword is
    there as a whole word. *)
Lemma match_at_keyword l pos prev rest :
  match_at false (Seq Bnd (Seq (lit_chars l) Bnd)) pos prev rest
  = if whole_word_at l prev rest
    then Some (MState (pos + length l) (last_char l prev)
                      (drop (length l) rest) [])
    else None.
Proof.
  unfold match_at, whole_word_at. simpl. unfold at_boundary at 1. simpl.
  destruct (xorb (word_opt prev) (word_opt (head rest))); [|reflexivity].
  rewrite exec_lit. simpl.
  destruct (starts_with l rest); [|reflexivity].
  unfold at_boundary. simpl.
  destruct (xorb _ _); reflexivity.
Qed.

Lemma scan_keyword l : forall rest skip pos prev,
  length (scan false (Seq Bnd (Seq (lit_chars l) Bnd)) skip pos prev rest)
  = count_whole_words l skip prev rest.
Proof.
  induction rest as [|c rest IH]; intros skip pos prev.
  - destruct skip; [|reflexivity].
    cbn [scan count_whole_words]. rewrite match_at_keyword.
    destruct (whole_word_at l prev []); reflexivity.
  - destruct skip as [|skip]; cbn [scan count_whole_words]; [|apply IH].
    rewrite match_at_keyword.
    destruct (whole_word_at l prev (c :: rest)); cbn [length m_pos].
    + rewrite IH. do 2 f_equal. lia.
    + apply IH.
Qed.

(** The count the source takes for a keyword is the number of whole-word
    occurrences of the lower-cased keyword. *)
Lemma matches_occurrences kw text :
  matches kw text = occurrences (lower kw) text.
Proof.
  unfold matches, occurrences, findall, keyword_pattern, escape.
  by rewrite scan_keyword.
Qed.

Lemma level_score_sum kws text :
  level_score kws text
  = fold_right Z.add 0%Z (map (fun kw => occurrences (lower kw) text) kws).
Proof.
  unfold level_score.
  assert (H : forall acc,
    fold_left (fun score keyword => (score + matches keyword text)%Z) kws acc
    = (acc + fold_right Z.add 0
               (map (fun kw => occurrences (lower kw) text) kws))%Z).
  { induction kws as [|kw kws IH]; intros acc; simpl; [lia|].
    rewrite IH, matches_occurrences. lia. }
  by rewrite H.
Qed.

(** The keywords of the taxonomy are in lower case already. *)
Lemma taxonomy_lower level :
  Forall (fun kw => lower kw = kw) (tier_keywords level).
Proof.
  unfold tier_keywords.
  destruct (List.find _ _) as [[name kws]|] eqn:E; [|constructor].
  apply find_some in E as [Hin _]. cbn [fmap option_fmap option_map default snd].
  unfold Settings.THREAT_KEYWORDS in Hin. cbn [In] in Hin.
  destruct Hin as [[= <- <-]|[[= <- <-]|[[= <- <-]|[[= <- <-]|[]]]]];
    repeat constructor.
Qed.

Lemma level_score_tier level text :
  level_score (tier_keywords level) text = tier_count level text.
Proof.
  rewrite level_score_sum. unfold tier_count. f_equal.
  apply map_ext_in. intros kw Hkw.
  pose proof (taxonomy_lower level) as H.
  rewrite Forall_forall in H. by rewrite H by by apply list_elem_of_In.
Qed.

(** The dictionary [scores] after the loop over a four-tier taxonomy. *)
Lemma scores_of_four c h m l text :
  let scores := compute_scores
                  [("critical", c); ("high", h); ("medium", m); ("low", l)]
                  text in
  scores !! "critical" = Some (level_score c text) /\
  scores !! "high" = Some (level_score h text) /\
  scores !! "medium" = Some (level_score m text).
Proof.
  unfold compute_scores. simpl.
  repeat split;
    repeat (rewrite lookup_insert_ne by discriminate);
    apply lookup_insert_eq.
Qed.

(** The decision chain is the first-tier rule. *)
Lemma decide_first_tier (scores : gmap string Z) text :
  scores !! "critical" = Some (tier_count "critical" text) ->
  scores !! "high" = Some (tier_count "high" text) ->
  scores !! "medium" = Some (tier_count "medium" text) ->
  decide_level scores = Some (first_tier tiers text).
Proof.
  intros Hc Hh Hm. unfold decide_level. rewrite Hc. simpl.
  destruct (0 <? tier_count "critical" text)%Z; [reflexivity|].
  rewrite Hh. simpl.
  destruct (0 <? tier_count "high" text)%Z; [reflexivity|].
  rewrite Hm. simpl.
  destruct (0 <? tier_count "medium" text)%Z; reflexivity.
Qed.

(** The analyzer computes the first-tier rule, whatever the low-tier list. *)
Lemma analyze_with_low low title content :
  analyze_threat_level (with_low_keywords low init) title content
  = Some (classify title content).
Proof.
  unfold analyze_threat_level, classify.
  set (text := lower (combined title content)).
  change (threat_keywords (with_low_keywords low init))
    with [ ("critical", tier_keywords "critical");
           ("high", tier_keywords "high");
           ("medium", tier_keywords "medium");
           ("low", low) ].
  destruct (scores_of_four (tier_keywords "critical") (tier_keywords "high")
              (tier_keywords "medium") low text) as (Hc & Hh & Hm).
  rewrite !level_score_tier in *.
  by apply decide_first_tier.
Qed.

Lemma analyze_init title content :
  analyze_threat_level init title content = Some (classify title content).
Proof. apply (analyze_with_low (tier_keywords "low")). Qed.

(** *** Counting and occurring *)

Lemma count_pos_of_occurrence kw post : forall pre prev,
  whole_word_at kw (last_char pre prev) post = true ->
  0 < count_whole_words kw 0 prev (pre ++ post).
Proof.
  induction pre as [|c pre IH]; intros prev H.
  - simpl app. unfold last_char in H. simpl in H.
    destruct post; cbn [count_whole_words]; rewrite H; lia.
  - rewrite last_char_cons in H. simpl app. cbn [count_whole_words].
    destruct (whole_word_at kw prev (c :: pre ++ post)); [lia|].
    by apply IH.
Qed.

Lemma occurrence_of_count_pos kw : forall rest skip prev,
  0 < count_whole_words kw skip prev rest ->
  exists pre post,
    rest = pre ++ post /\ whole_word_at kw (last_char pre prev) post = true.
Proof.
  induction rest as [|c rest IH]; intros skip prev H.
  - destruct skip; cbn [count_whole_words] in H; [|lia].
    destruct (whole_word_at kw prev []) eqn:E; [|lia].
    by exists [], [].
  - assert (Hlater : forall skip',
      0 < count_whole_words kw skip' (Some c) rest ->
      exists pre post,
        c :: rest = pre ++ post /\
        whole_word_at kw (last_char pre prev) post = true).
    { intros skip' H'. apply IH in H' as (pre & post & -> & Hw).
      exists (c :: pre), post. by rewrite last_char_cons. }
    destruct skip as [|skip]; cbn [count_whole_words] in H; [|eauto].
    destruct (whole_word_at kw prev (c :: rest)) eqn:E; [|eauto].
    by exists [], (c :: rest).
Qed.

Lemma last_char_None pre : last_char pre None = last pre.
Proof. unfold last_char. by destruct (last pre). Qed.

(** A positive count is an occurrence somewhere. *)
Lemma occurrences_pos_iff kw text :
  (0 < occurrences kw text)%Z <-> occurs_in kw text.
Proof.
  unfold occurrences, occurs_in. split.
  - intros H.
    destruct (occurrence_of_count_pos (chars kw) (chars text) 0 None)
      as (pre & post & Ht & Hw); [lia|].
    exists pre, post. by rewrite <- last_char_None.
  - intros (pre & post & -> & Hw). rewrite <- last_char_None in Hw.
    apply count_pos_of_occurrence in Hw. lia.
Qed.

Lemma occurrences_nonneg kw text : (0 <= occurrences kw text)%Z.
Proof. unfold occurrences. lia. Qed.

Lemma sum_pos_iff (f : string -> Z) kws :
  (forall kw, 0 <= f kw)%Z ->
  (0 <= fold_right Z.add 0 (map f kws))%Z /\
  ((0 < fold_right Z.add 0 (map f kws))%Z <->
   exists kw, kw ∈ kws /\ (0 < f kw)%Z).
Proof.
  intros Hf. induction kws as [|kw kws [IH0 IH]]; simpl.
  - split; [lia|]. split; [lia|]. intros (kw & Hkw & _).
    by apply elem_of_nil in Hkw.
  - specialize (Hf kw) as Hkw. split; [lia|]. split.
    + intros H. destruct (Z.ltb_spec 0 (f kw)).
      * exists kw. split; [by left|done].
      * destruct (proj1 IH) as (kw' & Hin & Hpos); [lia|].
        exists kw'. split; [by right|done].
    + intros (kw' & Hin & Hpos). apply elem_of_cons in Hin as [->|Hin].
      * lia.
      * assert (0 < fold_right Z.add 0 (map f kws))%Z by (apply IH; eauto).
        lia.
Qed.

(** The count of a tier is positive exactly when one of its keywords
    occurs in the text. *)
Lemma tier_count_pos_iff level text :
  (0 < tier_count level text)%Z <->
  exists kw, kw ∈ tier_keywords level /\ occurs_in kw text.
Proof.
  unfold tier_count.
  destruct (sum_pos_iff (fun kw => occurrences kw text) (tier_keywords level))
    as [_ ->]; [intros; apply occurrences_nonneg|].
  split; intros (kw & Hin & H); exists kw; split; try done;
    by apply occurrences_pos_iff.
Qed.

Lemma Qmin_confidence (count : Z) (n : Q) :
  (0 < count)%Z -> (0 < n)%Q ->
  (0 < Qmin (inject_Z count / n) 1 /\ Qmin (inject_Z count / n) 1 <= 1)%Q.
Proof.
  intros Hc Hn. split; [|apply Q.le_min_r].
  apply Q.min_glb_lt; [|reflexivity].
  apply Qlt_shift_div_l; [assumption|]. rewrite Qmult_0_l.
  unfold Qlt, inject_Z. simpl. lia.
Qed.

End AnalyzerFacts.

(** ** The claims on the classifier *)

Module AnalyzerClaims.

Import Py Re ThreatAnalyzer AnalyzerFacts.

(** Claim C1.  On every title and content the analyzer returns what the
    first-tier rule gives on the lower-cased text [title + " " + content]:
    the first of critical, high, medium whose whole-word keyword count is
    positive, with confidence min(count/3, 1), min(count/2, 1) or
    min(count/1.5, 1), and (low, 0.3) when all three counts are zero.  When
    a critical-tier keyword occurs, the level is critical whatever the
    other counts are. *)
Theorem classifier_first_tier_wins title content :
  let text := lower (combined title content) in
  let result := analyze_threat_level init title content in
  let count level := tier_count level text in
  result = Some (first_tier tiers text)
  /\ ((0 < count "critical")%Z ->
      result = Some (CRITICAL, Qmin (inject_Z (count "critical") / 3) 1))
  /\ (count "critical" = 0%Z -> (0 < count "high")%Z ->
      result = Some (HIGH, Qmin (inject_Z (count "high") / 2) 1))
  /\ (count "critical" = 0%Z -> count "high" = 0%Z ->
      (0 < count "medium")%Z ->
      result = Some (MEDIUM, Qmin (inject_Z (count "medium") / (3 # 2)) 1))
  /\ (count "critical" = 0%Z -> count "high" = 0%Z ->
      count "medium" = 0%Z ->
      result = Some (LOW, 3 # 10))
  /\ (forall kw, kw ∈ tier_keywords "critical" -> occurs_in kw text ->
      exists confidence,
        result = Some (CRITICAL, confidence) /\
        (0 < confidence /\ confidence <= 1)%Q).
Proof.
  intros text result count. unfold result, count.
  rewrite analyze_init. unfold classify. fold text.
  assert (Hcrit : (0 < tier_count "critical" text)%Z ->
    first_tier tiers text
    = (CRITICAL, Qmin (inject_Z (tier_count "critical" text) / 3) 1)).
  { intros H. simpl. apply Z.ltb_lt in H. by rewrite H. }
  split; [reflexivity|]. split; [by intros H; rewrite Hcrit|].
  split; [|split; [|split]].
  - intros Hc Hh. simpl. rewrite Hc. simpl.
    apply Z.ltb_lt in Hh. by rewrite Hh.
  - intros Hc Hh Hm. simpl. rewrite Hc, Hh. simpl.
    apply Z.ltb_lt in Hm. by rewrite Hm.
  - intros Hc Hh Hm. simpl. by rewrite Hc, Hh, Hm.
  - intros kw Hkw Hocc.
    assert (H : (0 < tier_count "critical" text)%Z)
      by (apply tier_count_pos_iff; eauto).
    eexists. split; [by rewrite Hcrit|]. by apply Qmin_confidence.
Qed.

(** C1 on a text with three critical-tier occurrences and one high-tier
    keyword. *)
Lemma classifier_first_tier_wins_witness :
  analyze_threat_level init "Zero-day exploit"
    "RCE actively exploited in the wild"
  = Some (CRITICAL, Qmin (inject_Z 3 / 3) 1).
Proof.
  apply (proj1 (proj2 (classifier_first_tier_wins "Zero-day exploit"
                         "RCE actively exploited in the wild"))).
  vm_compute. reflexivity.
Defined.

(** Claim C10.  When no critical-, high- or medium-tier keyword occurs in
    the text, the analyzer returns (low, 0.3), and it does so with any list
    of low-tier keywords in place of the configured one: the low-tier list
    has no part in the result. *)
Theorem low_tier_keywords_never_influence title content :
  let text := lower (combined title content) in
  (forall level kw,
     level ∈ ["critical"; "high"; "medium"] ->
     kw ∈ tier_keywords level -> ~ occurs_in kw text) ->
  analyze_threat_level init title content = Some (LOW, 3 # 10)
  /\ forall low,
       analyze_threat_level (with_low_keywords low init) title content
       = Some (LOW, 3 # 10).
Proof.
  intros text Hnone.
  assert (Hzero : forall level, level ∈ ["critical"; "high"; "medium"] ->
                                (0 <? tier_count level text)%Z = false).
  { intros level Hl. apply Z.ltb_ge.
    destruct (Z.le_gt_cases (tier_count level text) 0) as [|Hpos]; [done|].
    apply tier_count_pos_iff in Hpos as (kw & Hkw & Hocc).
    by destruct (Hnone level kw). }
  assert (Hlow : classify title content = (LOW, 3 # 10)).
  { unfold classify. fold text. simpl.
    rewrite !Hzero; [reflexivity|..]; set_solver. }
  split; [by rewrite analyze_init, Hlow|].
  intros low. by rewrite analyze_with_low, Hlow.
Qed.

(** C10 on a text made of low-tier keywords only. *)
Lemma low_tier_keywords_never_influence_witness :
  analyze_threat_level init "Security news"
    "Weekly advisory report on awareness and best practices"
  = Some (LOW, 3 # 10)
  /\ forall low,
       analyze_threat_level (with_low_keywords low init) "Security news"
         "Weekly advisory report on awareness and best practices"
       = Some (LOW, 3 # 10).
Proof.
  apply low_tier_keywords_never_influence.
  intros level kw Hl Hkw Hocc. apply occurrences_pos_iff in Hocc.
  repeat (apply elem_of_cons in Hl as [->|Hl]);
    [..|by apply elem_of_nil in Hl];
    match type of Hkw with
    | _ ∈ ?l => let l' := eval vm_compute in l in change l with l' in Hkw
    end;
    repeat (apply elem_of_cons in Hkw as [->|Hkw];
            [vm_compute in Hocc; discriminate|]);
    by apply elem_of_nil in Hkw.
Defined.

End AnalyzerClaims.

(** ** The IOC extractor *)

Module IocFacts.

Import Py Re ReFacts ThreatAnalyzer.

Lemma chars_str l : chars (str l) = l.
Proof. apply list_ascii_of_string_of_list_ascii. Qed.

(** The inner loop appends the entries of the matches the validator accepts,
    as long as the validator returns. *)
Lemma collect_matches_eq ty (valid : pyval -> bool) ms : forall iocs,
  (forall m, m ∈ ms -> _validate_ioc ty m = Some (valid m)) ->
  collect_matches ty ms iocs
  = Some (iocs ++ map (ioc_entry ty) (List.filter valid ms)).
Proof.
  induction ms as [|m ms IH]; intros iocs Hv; simpl.
  - by rewrite app_nil_r.
  - rewrite (Hv m) by left. simpl.
    rewrite IH by (intros; apply Hv; by right).
    destruct (valid m); simpl; [by rewrite <- app_assoc|done].
Qed.

Lemma collect_patterns_eq text pats : forall iocs,
  (forall ty r m, (ty, r) ∈ pats -> m ∈ findall true r text ->
     is_Some (_validate_ioc ty m)) ->
  collect_patterns pats text iocs
  = Some (iocs ++ flat_map (fun item =>
                     map (ioc_entry item.1)
                         (List.filter (accepts item.1)
                                      (findall true item.2 text))) pats).
Proof.
  induction pats as [|[ty r] pats IH]; intros iocs Hv; simpl.
  - by rewrite app_nil_r.
  - rewrite (collect_matches_eq ty (accepts ty)).
    + simpl. rewrite IH by (intros; eapply Hv; [by right|done]).
      by rewrite <- app_assoc.
    + intros m Hm. destruct (Hv ty r m) as [b Hb]; [by left|done|].
      unfold accepts. by rewrite Hb.
Qed.

Ltac pattern_cases H :=
  repeat (apply elem_of_cons in H as [H|H]; [injection H as -> ->|]);
  [..|by apply elem_of_nil in H].

(** With the detectors of the source the validator always returns: the only
    detector whose validator needs a string, [ip], has no group. *)
Lemma validator_returns text ty r m :
  (ty, r) ∈ ioc_patterns init -> m ∈ findall true r text ->
  is_Some (_validate_ioc ty m).
Proof.
  intros Hp Hm. simpl in Hp. pattern_cases Hp; try (by eexists).
  apply findall_nogroup in Hm as (w & -> & _); [by eexists|reflexivity].
Qed.

Lemma extract_iocs_init text :
  extract_iocs init text = Some (list_set (candidates init text)).
Proof.
  unfold extract_iocs.
  rewrite collect_patterns_eq by apply validator_returns.
  reflexivity.
Qed.

Lemma elem_of_list_set x l : x ∈ list_set l <-> x ∈ l.
Proof. unfold list_set. by rewrite elem_of_elements, elem_of_list_to_set. Qed.

Lemma NoDup_list_set l : NoDup (list_set l).
Proof. unfold list_set. apply NoDup_elements. Qed.

Lemma elem_of_candidates self text x :
  x ∈ candidates self text <->
  exists ty r m, (ty, r) ∈ ioc_patterns self /\ m ∈ findall true r text /\
                 accepts ty m = true /\ x = ioc_entry ty m.
Proof.
  unfold candidates. rewrite list_elem_of_In, in_flat_map. split.
  - intros ([ty r] & Hp & Hx). simpl in Hx.
    apply in_map_iff in Hx as (m & <- & Hm).
    apply filter_In in Hm as [Hm Ha].
    exists ty, r, m. by rewrite !list_elem_of_In.
  - intros (ty & r & m & Hp & Hm & Ha & ->).
    exists (ty, r). split; [by apply list_elem_of_In|]. simpl.
    apply in_map, filter_In. by rewrite <- list_elem_of_In.
Qed.

(** The [domain] detector has three groups, so its matches are 3-tuples, and
    the validator's [len(value) > 4] fails on every one of them. *)
Lemma domain_rejected text m :
  m ∈ findall true domain_pattern text -> accepts "domain" m = false.
Proof.
  intros Hm. apply (findall_groups _ _ _ _ 1) in Hm as (l & -> & Hl);
    [|reflexivity].
  unfold accepts. simpl. by rewrite Hl.
Qed.

(** *** The shape of an [ip] match *)

Lemma digits_lang lo hi u :
  lang true (Rep lo (Some hi) digit09) u ->
  forallb is_digit u = true /\ lo <= length u <= hi.
Proof.
  intros H. inv H.
  match goal with H : forall h, Some _ = Some h -> _ |- _ =>
    specialize (H _ eq_refl); rename H into Hhi end.
  match goal with H : Forall _ ws |- _ => rename H into Hws end.
  assert (Hc : forallb is_digit (concat ws) = true
               /\ length (concat ws) = length ws).
  { clear -Hws. induction Hws as [|w ws Hw _ [IH1 IH2]]; [done|].
    inv Hw. apply digit_class in H0. simpl. by rewrite H0, IH1, IH2. }
  destruct Hc as [-> ->]. split; [done|lia].
Qed.

Lemma octet_dot_lang w :
  lang true (Seq (Rep 1 (Some 3) digit09) (Chr ".")) w ->
  exists a, octet_text a /\ w = a ++ ["."%char].
Proof.
  intros H. inv H.
  match goal with H : lang _ (Chr _) _ |- _ => inv H end.
  match goal with H : chr_match _ _ _ = _ |- _ => apply dot_char in H as -> end.
  eexists. split; [|reflexivity]. by apply digits_lang.
Qed.

(** A text of the [ip] pattern is four groups of one to three digits,
    separated by dots. *)
Lemma rep3_lang ic r u :
  lang ic (Rep 3 (Some 3) r) u ->
  exists w1 w2 w3,
    lang ic r w1 /\ lang ic r w2 /\ lang ic r w3 /\ u = w1 ++ w2 ++ w3.
Proof.
  intros H. inversion H as [| | | | | | |lo hi a ws Hws Hlo Hhi|]; subst.
  specialize (Hhi _ eq_refl).
  destruct ws as [|w1 [|w2 [|w3 [|w4 ws]]]]; simpl in Hlo, Hhi; try lia.
  apply Forall_cons in Hws as [H1 Hws].
  apply Forall_cons in Hws as [H2 Hws].
  apply Forall_cons in Hws as [H3 _].
  exists w1, w2, w3. simpl. by rewrite app_nil_r.
Qed.

Lemma ip_lang w :
  lang true ip_pattern w ->
  exists a b c d,
    octet_text a /\ octet_text b /\ octet_text c /\ octet_text d /\
    w = a ++ "."%char :: b ++ "."%char :: c ++ "."%char :: d.
Proof.
  unfold ip_pattern. simpl. intros H.
  repeat match goal with
         | H : lang _ (Seq _ _) _ |- _ => inv H
         | H : lang _ Bnd _ |- _ => inv H
         end.
  match goal with H : lang _ (Rep 3 _ _) _ |- _ =>
    apply rep3_lang in H as (w1 & w2 & w3 & Hw1 & Hw2 & Hw3 & ->) end.
  match goal with H : lang _ (Rep 1 _ _) _ |- _ =>
    apply digits_lang in H; rename H into Hd end.
  apply octet_dot_lang in Hw1 as (a & Ha & ->).
  apply octet_dot_lang in Hw2 as (b & Hb & ->).
  apply octet_dot_lang in Hw3 as (c & Hc & ->).
  eexists a, b, c, _.
  split; [exact Ha|]. split; [exact Hb|]. split; [exact Hc|].
  split; [exact Hd|].
  simpl. rewrite !app_nil_r, <- !app_assoc. reflexivity.
Qed.

(** *** [split] and [isdigit] on digits *)

Lemma digit_not_dot a :
  forallb is_digit a = true -> Forall (fun x => Ascii.eqb x "." = false) a.
Proof.
  intros H. apply Forall_forall. intros x Hx.
  rewrite forallb_forall in H. apply list_elem_of_In in Hx.
  specialize (H x Hx).
  destruct (Ascii.eqb_spec x "."); [subst; discriminate|done].
Qed.

Lemma split_chars_last sep a : forall cur,
  Forall (fun x => Ascii.eqb x sep = false) a ->
  split_chars sep cur a = [str (rev cur ++ a)].
Proof.
  induction a as [|x a IH]; intros cur Ha; simpl.
  - by rewrite app_nil_r.
  - inv Ha. rewrite H1, IH by assumption. simpl.
    by rewrite <- app_assoc.
Qed.

Lemma split_chars_piece sep a rest : forall cur,
  Forall (fun x => Ascii.eqb x sep = false) a ->
  split_chars sep cur (a ++ sep :: rest)
  = str (rev cur ++ a) :: split_chars sep [] rest.
Proof.
  induction a as [|x a IH]; intros cur Ha; simpl.
  - by rewrite Ascii.eqb_refl, app_nil_r.
  - inv Ha. rewrite H1, IH by assumption. simpl.
    by rewrite <- app_assoc.
Qed.

Lemma split_quad a b c d :
  octet_text a -> octet_text b -> octet_text c -> octet_text d ->
  split "." (str (a ++ "."%char :: b ++ "."%char :: c ++ "."%char :: d))
  = [str a; str b; str c; str d].
Proof.
  intros [Ha _] [Hb _] [Hc _] [Hd _]. unfold split. rewrite chars_str.
  rewrite !split_chars_piece, split_chars_last by by apply digit_not_dot.
  reflexivity.
Qed.

Lemma isdigit_octet a : octet_text a -> isdigit (str a) = true.
Proof.
  intros [Ha Hl]. unfold isdigit. rewrite chars_str.
  destruct a; [simpl in Hl; lia|assumption].
Qed.

(** The validator on an [ip] match: all four octets are checked. *)
Lemma accepts_quad a b c d :
  octet_text a -> octet_text b -> octet_text c -> octet_text d ->
  let m := str (a ++ "."%char :: b ++ "."%char :: c ++ "."%char :: d) in
  octets m = [int (str a); int (str b); int (str c); int (str d)] /\
  accepts "ip" (PStr m)
  = forallb (fun o => (0 <=? o)%Z && (o <=? 255)%Z) (octets m).
Proof.
  intros Ha Hb Hc Hd m. unfold octets, accepts, m. simpl.
  rewrite split_quad by assumption. split; [reflexivity|].
  simpl. rewrite !isdigit_octet by assumption. reflexivity.
Qed.

(** *** What the result holds *)

(** An entry of the result comes from a match its validator accepted; the
    detector is never [domain]. *)
Lemma entry_origin text l x :
  extract_iocs init text = Some l -> x ∈ l ->
  exists ty r m,
    (ty, r) ∈ [ ("ip", ip_pattern); ("hash_md5", hash_pattern 32);
                ("hash_sha256", hash_pattern 64); ("cve", cve_pattern);
                ("email", email_pattern) ] /\
    m ∈ findall true r text /\ accepts ty m = true /\ x = ioc_entry ty m.
Proof.
  rewrite extract_iocs_init. intros [= <-] Hx.
  apply elem_of_list_set, elem_of_candidates in Hx
    as (ty & r & m & Hp & Hm & Ha & ->).
  simpl in Hp. apply elem_of_cons in Hp as [Hp|Hp].
  { exists ty, r, m. split; [rewrite Hp; by left|done]. }
  apply elem_of_cons in Hp as [Hp|Hp].
  { injection Hp as -> ->. apply domain_rejected in Hm. congruence. }
  exists ty, r, m. split; [by right|done].
Qed.

Ltac entry_eq H :=
  unfold ioc_entry in H; cbv [String.append PyVal.format] in H.

Lemma ip_entry_iff text l m :
  extract_iocs init text = Some l ->
  "ip:" +:+ m ∈ l <->
  PStr m ∈ findall true ip_pattern text /\ accepts "ip" (PStr m) = true.
Proof.
  intros Hl. split.
  - intros Hx.
    destruct (entry_origin _ _ _ Hl Hx) as (ty & r & m' & Hp & Hm & Ha & He).
    pattern_cases Hp; try (entry_eq He; discriminate).
    destruct (findall_nogroup true ip_pattern _ _ eq_refl Hm) as (w & -> & _).
    entry_eq He. injection He as ->. done.
  - intros [Hm Ha]. rewrite extract_iocs_init in Hl. injection Hl as <-.
    apply elem_of_list_set, elem_of_candidates.
    exists "ip", ip_pattern, (PStr m). simpl. split; [by left|done].
Qed.

End IocFacts.

(** ** The claims on the IOC extractor *)

Module IocClaims.

Import Py Re ReFacts ThreatAnalyzer IocFacts.

(** Claim C8.  A dotted quad matched by the [ip] detector has four octets
    and is in the result of [extract_iocs], as ["ip:" + match], exactly when
    every octet is in [0, 255].  The extractor returns [ip:8.8.8.8] on
    [8.8.8.8], also inside a sentence, and returns nothing on
    [999.999.999.999]; no text at all yields the entry
    [ip:999.999.999.999]. *)
Theorem ip_emitted_iff_octets_in_range :
  (forall text m,
     PStr m ∈ findall true ip_pattern text ->
     length (octets m) = 4 /\
     exists l, extract_iocs init text = Some l /\
       ("ip:" +:+ m ∈ l <->
        Forall (fun o => (0 <= o <= 255)%Z) (octets m)))
  /\ extract_iocs init "8.8.8.8" = Some ["ip:8.8.8.8"]
  /\ extract_iocs init "999.999.999.999" = Some []
  /\ extract_iocs init "C2 at 8.8.8.8, decoy 999.999.999.999"
     = Some ["ip:8.8.8.8"]
  /\ (forall text l,
        extract_iocs init text = Some l -> "ip:999.999.999.999" ∉ l).
Proof.
  split; [|split; [|split; [|split]]]; try (vm_compute; reflexivity).
  - intros text m Hm.
    destruct (findall_nogroup true ip_pattern _ _ eq_refl Hm)
      as (w & [= ->] & Hw).
    apply ip_lang in Hw as (a & b & c & d & Ha & Hb & Hc & Hd & ->).
    destruct (accepts_quad a b c d Ha Hb Hc Hd) as [Ho Hacc].
    split; [by rewrite Ho|].
    eexists. split; [apply extract_iocs_init|].
    rewrite (ip_entry_iff text _ _ (extract_iocs_init text)).
    rewrite Hacc, forallb_forall, Forall_forall.
    split.
    + intros [_ H] o Ho'. apply list_elem_of_In, H in Ho'. lia.
    + intros H. split; [assumption|].
      intros o Ho'. apply list_elem_of_In, H in Ho'. lia.
  - intros text l Hl Hx. apply (ip_entry_iff _ _ _ Hl) in Hx as [_ Hx].
    vm_compute in Hx. discriminate.
Qed.

(** The general part of C8 at the text [8.8.8.8]. *)
Lemma ip_emitted_iff_octets_in_range_witness :
  length (octets "8.8.8.8") = 4 /\
  exists l, extract_iocs init "8.8.8.8" = Some l /\
    ("ip:8.8.8.8" ∈ l <->
     Forall (fun o => (0 <= o <= 255)%Z) (octets "8.8.8.8")).
Proof.
  apply (proj1 ip_emitted_iff_octets_in_range "8.8.8.8" "8.8.8.8").
  vm_compute. left.
Defined.

(** Claim C2, on the code: the [domain] detector has three capturing groups,
    so [findall] hands 3-tuples to the validator, whose length test fails on
    each; on [evil-domain.com] the extractor returns the empty list, and on
    no text does its result hold an entry starting with [domain:]. *)
Theorem domain_entries_never_emitted :
  findall true domain_pattern "evil-domain.com"
  = [PTuple ["vil-domain"; ""; ""]]
  /\ _validate_ioc "domain" (PTuple ["vil-domain"; ""; ""]) = Some false
  /\ extract_iocs init "evil-domain.com" = Some []
  /\ (forall text, exists l,
        extract_iocs init text = Some l /\
        forall x, x ∈ l -> ~ exists v, x = "domain:" +:+ v).
Proof.
  split; [|split; [|split]]; try (vm_compute; reflexivity).
  intros text. eexists. split; [apply extract_iocs_init|].
  intros x Hx [v Hv].
  destruct (entry_origin _ _ _ (extract_iocs_init text) Hx)
    as (ty & r & m & Hp & _ & _ & He).
  subst x. pattern_cases Hp; entry_eq He; discriminate.
Qed.

End IocClaims.

(** ** The tag extractor and the feed loop *)

Module ScraperFacts.

Import Py Re ThreatAnalyzer AnalyzerFacts IocFacts ScraperManager.

Lemma collect_tags_eq text pats : forall tags,
  collect_tags pats text tags
  = tags ++ map fst (List.filter (fun item => search true item.2 text) pats).
Proof.
  induction pats as [|[tag r] pats IH]; intros tags; simpl.
  - by rewrite app_nil_r.
  - rewrite IH. destruct (search true r text); simpl; [|done].
    by rewrite <- app_assoc.
Qed.

Lemma filter_keys_sublist {A} (f : string * A -> bool) l :
  map fst (List.filter f l) `sublist_of` map fst l.
Proof.
  induction l as [|x l IH]; simpl; [constructor|].
  destruct (f x); simpl; by constructor.
Qed.

Lemma extract_tags_vocabulary title content :
  extract_tags init title content `sublist_of` tag_vocabulary.
Proof.
  unfold extract_tags. rewrite collect_tags_eq.
  change ([] ++ ?l) with l.
  apply (filter_keys_sublist _ (tag_patterns init)).
Qed.

Lemma falsy_iff s : falsy s = true <-> s = "".
Proof. unfold falsy. apply String.eqb_eq. Qed.

(** With the analyzer of the source nothing raises inside the loop body:
    an entry is skipped by the guard only. *)
Lemma parse_entry_init get_text now source i entry :
  parse_entry get_text now init source i entry = None <-> kept entry = false.
Proof.
  unfold parse_entry, kept.
  destruct (falsy (strip (get (e_title entry)))
            || falsy (strip (get (e_link entry)))); simpl; [done|].
  rewrite analyze_init. simpl.
  destruct (classify _ _) as [level confidence].
  rewrite extract_iocs_init. simpl. done.
Qed.

Lemma parse_entry_url get_text now source i entry a :
  parse_entry get_text now init source i entry = Some a ->
  ad_url a = Some (strip (get (e_link entry))) /\
  ad_tags a
  = Some (extract_tags init (strip (get (e_title entry)))
            (default "" (ad_content a))) /\
  exists text, ad_iocs a = Some (list_set (candidates init text)).
Proof.
  unfold parse_entry.
  destruct (falsy _ || falsy _); [discriminate|].
  rewrite analyze_init. simpl.
  destruct (classify _ _) as [level confidence].
  rewrite extract_iocs_init. simpl. intros [= <-]. simpl. eauto.
Qed.

(** The loop appends, in feed order, one article for each entry kept. *)
Lemma parse_entries_urls get_text now source entries : forall i articles,
  map ad_url (parse_entries get_text now init source i entries articles)
  = map ad_url articles
    ++ map (fun e => Some (strip (get (e_link e)))) (List.filter kept entries).
Proof.
  induction entries as [|e entries IH]; intros i articles; simpl.
  - by rewrite app_nil_r.
  - rewrite IH.
    destruct (parse_entry get_text now init source i e) as [a|] eqn:E.
    + assert (kept e = true) as ->.
      { destruct (kept e) eqn:K; [done|].
        apply (parse_entry_init get_text now source i) in K. congruence. }
      apply parse_entry_url in E as [E _].
      rewrite map_app. simpl. rewrite E. by rewrite <- app_assoc.
    + apply parse_entry_init in E as ->. done.
Qed.

Lemma filter_length_le {A} (f : A -> bool) l :
  length (List.filter f l) <= length l.
Proof. induction l as [|x l IH]; simpl; [lia|]. destruct (f x); simpl; lia. Qed.

End ScraperFacts.

Module ScraperClaims.

Import Py Re ThreatAnalyzer AnalyzerFacts IocFacts ScraperManager ScraperFacts.

(** Claim C9.  The list [extract_iocs] returns has no duplicates; the list
    [extract_tags] returns has no duplicates and is drawn, in order, from
    the ten tags of the vocabulary; so the [tags] and [iocs] of every
    article the feed loop builds have no duplicates. *)
Theorem tags_and_iocs_without_duplicates :
  (forall text, exists l, extract_iocs init text = Some l /\ NoDup l)
  /\ (forall title content,
        NoDup (extract_tags init title content) /\
        extract_tags init title content ⊆ tag_vocabulary /\
        length tag_vocabulary = 10)
  /\ (forall get_text now source i entry a,
        parse_entry get_text now init source i entry = Some a ->
        exists tags iocs,
          ad_tags a = Some tags /\ ad_iocs a = Some iocs /\
          NoDup tags /\ NoDup iocs).
Proof.
  assert (Htags : forall title content,
            NoDup (extract_tags init title content)).
  { intros. eapply sublist_NoDup; [|apply extract_tags_vocabulary].
    apply (bool_decide_unpack (NoDup tag_vocabulary)). vm_compute. exact I. }
  split; [|split].
  - intros text. eexists. split; [apply extract_iocs_init|].
    apply NoDup_list_set.
  - intros title content. split; [apply Htags|]. split; [|reflexivity].
    apply sublist_subseteq, extract_tags_vocabulary.
  - intros get_text now source i entry a H.
    apply parse_entry_url in H as (_ & Ht & text & Hi).
    eexists _, _. split; [exact Ht|]. split; [exact Hi|].
    split; [apply Htags|apply NoDup_list_set].
Qed.

(** C9 on an entry whose text names the same address and the same topic
    twice. *)
Lemma tags_and_iocs_without_duplicates_witness :
  exists tags iocs,
    NoDup tags /\ NoDup iocs /\
    tags = ["malware"; "ransomware"] /\ iocs = ["ip:8.8.8.8"].
Proof.
  destruct (parse_entry (fun s => s) (fun _ => 0%Z) init "feed" 0
              {| e_title := Some "Ransomware trojan at 8.8.8.8";
                 e_summary := Some "trojan ransomware again at 8.8.8.8";
                 e_link := Some "https://example.org/a";
                 e_published := None |}) as [a|] eqn:E;
    [|vm_compute in E; discriminate].
  destruct (proj2 (proj2 tags_and_iocs_without_duplicates) _ _ _ _ _ _ E)
    as (tags & iocs & Ht & Hi & Nt & Ni).
  exists tags, iocs.
  split; [exact Nt|]. split; [exact Ni|].
  vm_compute in E. injection E as <-. simpl in Ht, Hi.
  split; congruence.
Defined.

(** Claim C7, as amended.  The feed loop handles the first 20 entries only,
    so it returns at most 20 articles; an entry is skipped exactly when its
    title or its link is empty after trimming, and the articles returned
    are, in feed order, those of the entries that have both. *)
Theorem feed_takes_20_and_needs_title_and_link get_text now source feed :
  let out := scrape_rss_feed get_text now init source feed in
  length out <= 20
  /\ (forall entries, feed = Some entries ->
        out = scrape_rss_feed get_text now init source
                (Some (take 20 entries)) /\
        map ad_url out
        = map (fun e => Some (strip (get (e_link e))))
              (List.filter kept (take 20 entries)))
  /\ (forall i entry,
        parse_entry get_text now init source i entry = None <->
        strip (get (e_title entry)) = "" \/ strip (get (e_link entry)) = "").
Proof.
  intros out.
  assert (Hurls : forall entries, feed = Some entries ->
            map ad_url out
            = map (fun e => Some (strip (get (e_link e))))
                  (List.filter kept (take 20 entries))).
  { intros entries ->. unfold out, scrape_rss_feed.
    destruct entries as [|e entries]; [reflexivity|].
    by rewrite parse_entries_urls. }
  split; [|split].
  - destruct feed as [entries|]; [|simpl; lia].
    rewrite <- (length_map ad_url), (Hurls entries eq_refl), length_map.
    etrans; [apply filter_length_le|]. rewrite length_take. lia.
  - intros entries Hf. split; [|by apply Hurls].
    subst feed. unfold out, scrape_rss_feed.
    destruct entries as [|e entries]; [reflexivity|].
    change Settings.MAX_ARTICLES_PER_SOURCE with 20.
    by rewrite take_take, Nat.min_id.
  - intros i entry. rewrite parse_entry_init. unfold kept.
    rewrite negb_false_iff, orb_true_iff, !falsy_iff. done.
Qed.

(** C7 on a feed of three entries, of which one has a title and a link,
    one has no link and one has no title. *)
Lemma feed_takes_20_and_needs_title_and_link_witness :
  let entry t l := {| e_title := t; e_summary := Some "<p>text</p>";
                      e_link := l; e_published := None |} in
  let feed := Some [ entry (Some "Patch released") None;
                     entry (Some " Malware report ")
                           (Some "https://example.org/a ");
                     entry None (Some "https://example.org/b") ] in
  map ad_url (scrape_rss_feed (fun s => s) (fun _ => 0%Z) init "feed" feed)
  = [Some "https://example.org/a"].
Proof.
  intros entry feed.
  destruct (feed_takes_20_and_needs_title_and_link
              (fun s => s) (fun _ => 0%Z) "feed" feed) as (_ & H & _).
  destruct (H _ eq_refl) as [_ ->]. vm_compute. reflexivity.
Defined.

(** Claim C7, as stated, fails: an entry with a title and no link is
    dropped although it is not missing both. *)
Lemma drop_rule_as_stated_fails : ~ drop_rule_as_stated.
Proof.
  intros H.
  destruct (proj1 (H (fun s => s) (fun _ => 0%Z) "feed" 0
                     {| e_title := Some "Emergency patch released";
                        e_summary := Some "Vendor ships a fix";
                        e_link := None;
                        e_published := None |}))
    as [Ht _]; [vm_compute; reflexivity|].
  vm_compute in Ht. discriminate.
Qed.

End ScraperClaims.

(** ** The store: [save_articles] *)

Module StoreFacts.

Import Py DatabaseManager.

Section Engine.

Variable fails : nat -> bool.
Variables py_now sql_now : Z.

Lemma first_by_url_Some table u :
  u ∈ map url table <-> is_Some (first_by_url table u).
Proof.
  unfold first_by_url. induction table as [|r table IH]; simpl.
  - split; [by intros ?%elem_of_nil|by intros [? ?]].
  - destruct (String.eqb_spec (url r) u) as [->|Hne].
    + split; [by eexists|by left].
    + rewrite <- IH, elem_of_cons. split; [intros [?|?]; [congruence|done]|].
      by right.
Qed.

(** The loop, when it ends normally: every record had a [url], every SELECT
    went through, and the session holds the new records in batch order. *)
Lemma save_loop_ok table : forall batch added n k added' n' k',
  save_loop fails py_now table batch added n k = (Ok (added', n'), k') ->
  added' = added ++ map (new_article py_now) (List.filter (is_new table) batch)
  /\ n' = (n + Z.of_nat (length (List.filter (is_new table) batch)))%Z
  /\ k' = k + length batch
  /\ (forall j, k <= j < k' -> fails j = false)
  /\ Forall (fun a => is_Some (ad_url a)) batch.
Proof.
  induction batch as [|a batch IH]; intros added n k added' n' k' H;
    simpl in H.
  - injection H as <- <- <-. rewrite app_nil_r. simpl.
    repeat split; try lia. constructor.
  - destruct (ad_url a) as [u|] eqn:Hu; [|discriminate].
    destruct (fails k) eqn:Hk; [discriminate|].
    assert (Hstep : forall j, k <= j < S k + length batch ->
              (forall j, S k <= j < S k + length batch -> fails j = false) ->
              fails j = false).
    { intros j Hj Hrest. destruct (decide (j = k)) as [->|]; [done|].
      apply Hrest. lia. }
    cbn [List.filter length].
    destruct (first_by_url table u) eqn:Hf.
    + assert (is_new table a = false) as ->
        by (unfold is_new; by rewrite Hu, Hf).
      apply IH in H as (-> & -> & -> & Hfs & Hall).
      split; [done|]. split; [done|]. split; [lia|].
      split; [|constructor; by eauto].
      intros j Hj. apply Hstep; [lia|done].
    + assert (is_new table a = true) as ->
        by (unfold is_new; by rewrite Hu, Hf).
      apply IH in H as (-> & -> & -> & Hfs & Hall).
      cbn [map length]. rewrite <- app_assoc.
      split; [done|]. split; [lia|]. split; [lia|].
      split; [|constructor; by eauto].
      intros j Hj. apply Hstep; [lia|done].
Qed.

(** The flush, when it succeeds: every INSERT went through and the rows
    written are the added articles, in order, after the rows of [work]. *)
Lemma flush_ok : forall added work k work' k',
  flush fails sql_now work added k = (Ok work', k') ->
  exists new,
    work' = work ++ new
    /\ Forall2 (fun a r => exists i, r = stored sql_now i a) added new
    /\ k' = k + length added
    /\ (forall j, k <= j < k' -> fails j = false).
Proof.
  induction added as [|a added IH]; intros work k work' k' H; simpl in H.
  - injection H as <- <-. exists []. rewrite app_nil_r.
    split; [done|]. split; [constructor|]. split; [simpl; lia|].
    intros j Hj. simpl in Hj. lia.
  - destruct (fails k) eqn:Hk; [discriminate|].
    unfold insert_row in H.
    destruct (first_by_url work (url a)); [discriminate|].
    apply IH in H as (new & -> & Hnew & -> & Hfs).
    exists (stored sql_now (next_id work) a :: new).
    rewrite <- app_assoc.
    split; [done|]. split; [constructor; eauto|]. split; [simpl; lia|].
    intros j Hj. destruct (decide (j = k)) as [->|]; [done|].
    apply Hfs. simpl in Hj. lia.
Qed.

Lemma stored_urls added new :
  Forall2 (fun a r => exists i, r = stored sql_now i a) added new ->
  map url new = map url added.
Proof.
  induction 1 as [|a r added new [i ->] _ IH]; simpl; [done|]. by rewrite IH.
Qed.

(** A successful call, taken apart. *)
Lemma save_articles_ok table batch n :
  returned (save_articles fails py_now sql_now table batch) = Ok n ->
  let r := save_articles fails py_now sql_now table batch in
  exists new,
    table_after r = table ++ new
    /\ Forall2 (fun a row => exists i, row = stored sql_now i a)
         (map (new_article py_now) (List.filter (is_new table) batch)) new
    /\ n = Z.of_nat (length new)
    /\ statements r = length batch + length new + 1
    /\ (forall j, j < statements r -> fails j = false)
    /\ Forall (fun a => is_Some (ad_url a)) batch.
Proof.
  unfold save_articles.
  destruct (save_loop fails py_now table batch [] 0%Z 0)
    as [[[added n']|e] k] eqn:Hloop; [|discriminate].
  apply save_loop_ok in Hloop as (-> & -> & -> & Hfs & Hall).
  unfold commit.
  destruct (flush fails sql_now table _ _) as [[work|e] k'] eqn:Hflush;
    [|discriminate].
  apply flush_ok in Hflush as (new & -> & Hnew & -> & Hfs').
  destruct (fails _) eqn:Hc; [discriminate|].
  simpl. intros [= <-]. exists new.
  change ([] ++ ?l) with l in *.
  pose proof (Forall2_length _ _ _ Hnew) as Hlen.
  rewrite length_map in *.
  split; [done|]. split; [done|]. split; [lia|]. split; [lia|].
  split; [|done].
  intros j Hj.
  destruct (decide (j < length batch)); [apply Hfs; lia|].
  destruct (decide (j = 0 + length batch
                        + length (List.filter (is_new table) batch)))
    as [->|]; [done|].
  apply Hfs'. lia.
Qed.

(** A call that raises leaves the table as it was. *)
Lemma save_articles_raise table batch e :
  returned (save_articles fails py_now sql_now table batch) = Raise e ->
  table_after (save_articles fails py_now sql_now table batch) = table.
Proof.
  unfold save_articles.
  destruct (save_loop fails py_now table batch [] 0%Z 0)
    as [[[added n']|e'] k]; [|done].
  destruct (commit fails sql_now table added k) as [[table'|e'] k'];
    [discriminate|done].
Qed.

End Engine.

(** With every [url] of the batch in the table already, a reliable engine
    returns 0 and the table is the same. *)
Lemma save_known py_now sql_now table batch :
  Forall (fun a => exists u, ad_url a = Some u /\ u ∈ map url table) batch ->
  save_articles reliable py_now sql_now table batch
  = Saved (Ok 0%Z) table (length batch + 1).
Proof.
  intros Hall. unfold save_articles.
  assert (H : forall k,
    save_loop reliable py_now table batch [] 0%Z k
    = (Ok ([], 0%Z), k + length batch)).
  { induction Hall as [|a batch (u & Hu & Hin) _ IH]; intros k; simpl.
    - by rewrite Nat.add_0_r.
    - rewrite Hu. apply first_by_url_Some in Hin as [row ->].
      rewrite IH. f_equal. simpl. lia. }
  rewrite H. simpl. by rewrite Nat.add_1_r.
Qed.

(** Two records of one batch with the same new [url]: neither SELECT sees
    the other record, the second INSERT violates the UNIQUE index, and the
    whole batch is rolled back. *)
Example save_duplicate_in_batch :
  let record t := {| ad_title := Some t; ad_summary := None;
                     ad_content := None; ad_url := Some "u";
                     ad_image_url := None; ad_source_name := None;
                     ad_author := None; ad_published_date := None;
                     ad_threat_level := None; ad_confidence_score := None;
                     ad_tags := None; ad_iocs := None |} in
  save_articles reliable 7 8 [] [record "first"; record "second"]
  = Saved (Raise IntegrityError) [] 4.
Proof. reflexivity. Qed.

End StoreFacts.

Module StoreClaims.

Import Py DatabaseManager StoreFacts.

(** Claim C3.  Writing a record whose [url] is in the table already adds
    nothing: with a reliable engine the call returns 0 without raising and
    the table, every stored field included, is the same; with any engine
    the table is the same.  After a write that succeeded, writing the same
    batch again, at any later time, returns 0 and leaves the table as the
    first write left it. *)
Theorem save_articles_idempotent_by_url py_now sql_now table :
  (forall a u,
     ad_url a = Some u -> u ∈ map url table ->
     save_articles reliable py_now sql_now table [a]
     = Saved (Ok 0%Z) table 2
     /\ forall fails,
          table_after (save_articles fails py_now sql_now table [a]) = table)
  /\ (forall batch n table' k py_now' sql_now',
        save_articles reliable py_now sql_now table batch
        = Saved (Ok n) table' k ->
        save_articles reliable py_now' sql_now' table' batch
        = Saved (Ok 0%Z) table' (length batch + 1)).
Proof.
  split.
  - intros a u Hu Hin. split.
    + apply (save_known py_now sql_now table [a]). repeat constructor. eauto.
    + intros fails.
      destruct (returned (save_articles fails py_now sql_now table [a]))
        as [n|e] eqn:Hr; [|by eapply save_articles_raise].
      apply save_articles_ok in Hr as (new & -> & Hnew & _).
      apply first_by_url_Some in Hin as [row Hrow].
      cbn [List.filter] in Hnew. unfold is_new in Hnew.
      rewrite Hu, Hrow in Hnew. cbn [map] in Hnew.
      apply Forall2_nil_inv_l in Hnew as ->. by rewrite app_nil_r.
  - intros batch n table' k py_now' sql_now' H.
    apply save_known.
    assert (Hr : returned (save_articles reliable py_now sql_now table batch)
                 = Ok n) by by rewrite H.
    apply save_articles_ok in Hr as (new & Ht & Hnew & _ & _ & _ & Hall).
    rewrite H in Ht. simpl in Ht. subst table'.
    apply stored_urls in Hnew.
    rewrite Forall_forall in Hall |- *. intros a Ha.
    destruct (Hall a Ha) as [u Hu]. exists u. split; [done|].
    rewrite map_app, elem_of_app.
    destruct (first_by_url table u) as [row|] eqn:Hf.
    + left. apply first_by_url_Some. by eexists.
    + right. rewrite Hnew, map_map.
      apply list_elem_of_In, in_map_iff. exists a. split.
      * simpl. by rewrite Hu.
      * apply filter_In. split; [by apply list_elem_of_In|].
        unfold is_new. by rewrite Hu, Hf.
Qed.

(** C3 on a stored article submitted again under another title. *)
Lemma save_articles_idempotent_by_url_witness :
  let row := {| id := 1; title := "Old title"; summary := ""; content := "";
                url := "https://example.org/a"; image_url := None;
                source_name := "feed"; author := None; published_date := 5;
                scraped_date := 6; threat_level := "low";
                confidence_score := 3 # 10; tags := []; iocs := [];
                views := 0; bookmarked := false |} in
  let again := {| ad_title := Some "New title"; ad_summary := None;
                  ad_content := None;
                  ad_url := Some "https://example.org/a";
                  ad_image_url := None; ad_source_name := None;
                  ad_author := None; ad_published_date := None;
                  ad_threat_level := None; ad_confidence_score := None;
                  ad_tags := None; ad_iocs := None |} in
  save_articles reliable 7 8 [row] [again] = Saved (Ok 0%Z) [row] 2.
Proof.
  intros row again.
  apply (proj1 (save_articles_idempotent_by_url 7 8 [row]) again
           "https://example.org/a" eq_refl).
  simpl. left.
Defined.

(** Claim C4.  A call of [save_articles] that raises leaves the table as it
    was; whenever one of the statements sent to the storage engine fails the
    call raises; and a call that returns a count has had no failing
    statement and has added that many rows, one for each new record of the
    batch. *)
Theorem save_articles_all_or_nothing fails py_now sql_now table batch :
  let r := save_articles fails py_now sql_now table batch in
  (forall e, returned r = Raise e -> table_after r = table)
  /\ ((exists j, j < statements r /\ fails j = true) ->
      exists e, returned r = Raise e /\ table_after r = table)
  /\ (forall n, returned r = Ok n ->
      (forall j, j < statements r -> fails j = false) /\
      exists new,
        table_after r = table ++ new
        /\ n = Z.of_nat (length new)
        /\ map url new
           = map (fun a => default "" (ad_url a))
                 (List.filter (is_new table) batch)).
Proof.
  intros r. split; [|split].
  - intros e. apply save_articles_raise.
  - intros (j & Hj & Hf).
    destruct (returned r) as [n|e] eqn:Hr.
    + apply save_articles_ok in Hr as (new & _ & _ & _ & _ & Hfs & _).
      rewrite (Hfs j Hj) in Hf. discriminate.
    + exists e. split; [done|]. by eapply save_articles_raise.
  - intros n Hr.
    apply save_articles_ok in Hr as (new & Ht & Hnew & Hn & _ & Hfs & _).
    split; [exact Hfs|]. exists new. split; [exact Ht|]. split; [exact Hn|].
    apply stored_urls in Hnew. by rewrite Hnew, map_map.
Qed.

(** C4 on a batch of two new records, the second INSERT failing: the first
    INSERT is rolled back with it. *)
Lemma save_articles_all_or_nothing_witness :
  let record u := {| ad_title := Some "t"; ad_summary := None;
                     ad_content := None; ad_url := Some u;
                     ad_image_url := None; ad_source_name := None;
                     ad_author := None; ad_published_date := None;
                     ad_threat_level := None; ad_confidence_score := None;
                     ad_tags := None; ad_iocs := None |} in
  let r := save_articles (Nat.eqb 3) 7 8 [] [record "u1"; record "u2"] in
  exists e, returned r = Raise e /\ table_after r = [].
Proof.
  intros record r.
  apply (proj1 (proj2 (save_articles_all_or_nothing (Nat.eqb 3) 7 8 []
                         [record "u1"; record "u2"]))).
  exists 3. vm_compute. split; [repeat constructor|reflexivity].
Defined.

End StoreClaims.

(** ** The store: [search_articles] *)

Module SearchFacts.

Import Py DatabaseManager IocFacts.

(** The text in the column starts with a quote: it is never ['[]']. *)
Lemma iocs_column_text r : String.eqb (iocs_column r) "[]" = false.
Proof. reflexivity. Qed.

Lemma forallb_conditions kt filters r :
  (forall kws, keywords filters = Some kws ->
     existsb (fun keyword => keyword_condition keyword r) kws
     = existsb (fun keyword => kt keyword r) kws) ->
  forallb (fun c => c r) (conditions filters)
  = satisfies kt iocs_condition filters r.
Proof.
  intros Hk. unfold conditions, satisfies. rewrite !forallb_app.
  rewrite !andb_assoc. repeat f_equal.
  - destruct (keywords filters) as [[|kw kws]|]; try done.
    cbn [forallb]. rewrite andb_true_r. by apply (Hk (kw :: kws)).
  - destruct (threat_levels filters) as [[|]|]; simpl; by rewrite ?andb_true_r.
  - destruct (sources filters) as [[|]|]; simpl; by rewrite ?andb_true_r.
  - destruct (date_from filters); simpl; by rewrite ?andb_true_r.
  - destruct (date_to filters); simpl; by rewrite ?andb_true_r.
  - destruct (has_iocs filters) as [[|]|]; cbn [forallb iocs_condition xorb];
      rewrite ?andb_true_r; try done; by destruct (String.eqb _ _).
Qed.

(** The rows the query keeps are the rows of the table that pass every
    condition. *)
Lemma elem_of_apply_filters filters table r :
  r ∈ apply_filters filters table <->
  r ∈ table /\ satisfies keyword_condition iocs_condition filters r = true.
Proof.
  unfold apply_filters.
  rewrite list_elem_of_In, filter_In, <- list_elem_of_In.
  by rewrite (forallb_conditions keyword_condition).
Qed.

Lemma items_subseteq table filters page per_page resp :
  search_articles table filters page per_page = Ok resp ->
  items resp ⊆ apply_filters filters table.
Proof.
  unfold search_articles. destruct (per_page =? 0)%Z; [discriminate|].
  intros [= <-]. simpl. unfold limit_, offset_, order_by_desc.
  intros r Hr.
  assert (r ∈ merge_sort newer_first (apply_filters filters table)) as H.
  { destruct (per_page <? 0)%Z;
      [|apply subseteq_take in Hr]; by apply subseteq_drop in Hr. }
  by rewrite merge_sort_Permutation in H.
Qed.

(** *** [LIKE] on a keyword without wildcards *)

Lemma chars_append a b : chars (a +:+ b) = chars a ++ chars b.
Proof. induction a; simpl; [done|]. unfold chars in *. simpl. by f_equal. Qed.

Lemma chars_lower s : chars (lower s) = map lower_char (chars s).
Proof. unfold lower. apply chars_str. Qed.

Lemma lower_char_idemp c : lower_char (lower_char c) = lower_char c.
Proof. destruct c as [[] [] [] [] [] [] [] []]; reflexivity. Qed.

Lemma lower_char_percent c :
  Ascii.eqb (lower_char c) "%" = Ascii.eqb c "%".
Proof. destruct c as [[] [] [] [] [] [] [] []]; reflexivity. Qed.

Lemma lower_char_underscore c :
  Ascii.eqb (lower_char c) "_" = Ascii.eqb c "_".
Proof. destruct c as [[] [] [] [] [] [] [] []]; reflexivity. Qed.

Lemma like_percent_nil q : like ("%"%char :: q) [] = like q [].
Proof. simpl. apply orb_false_r. Qed.

Lemma like_percent_cons q x s :
  like ("%"%char :: q) (x :: s) = like q (x :: s) || like ("%"%char :: q) s.
Proof. reflexivity. Qed.

Lemma like_percent_only s : like ["%"%char] s = true.
Proof.
  induction s as [|x s IH]; [reflexivity|].
  rewrite like_percent_cons, IH. apply orb_true_r.
Qed.

(** A lower-case pattern without wildcards, followed by [%], is a prefix
    test on a lower-case subject. *)
Lemma like_prefix p : forall s,
  forallb (fun c => negb (Ascii.eqb c "%" || Ascii.eqb c "_")) p = true ->
  like (map lower_char p ++ ["%"%char]) (map lower_char s)
  = starts_with (map lower_char p) (map lower_char s).
Proof.
  induction p as [|c p IH]; intros s Hp.
  - simpl app. rewrite like_percent_only. by destruct s.
  - simpl in Hp. apply andb_true_iff in Hp as [Hc Hp].
    apply negb_true_iff, orb_false_iff in Hc as [Hc1 Hc2].
    cbn [map app like]. rewrite lower_char_percent, Hc1.
    destruct s as [|x s]; [reflexivity|]. cbn [map starts_with].
    rewrite lower_char_underscore, Hc2, !lower_char_idemp, IH by done.
    reflexivity.
Qed.

Lemma like_contains p : forall s,
  forallb (fun c => negb (Ascii.eqb c "%" || Ascii.eqb c "_")) p = true ->
  like ("%"%char :: map lower_char p ++ ["%"%char]) (map lower_char s)
  = contains_chars (map lower_char p) (map lower_char s).
Proof.
  intros s Hp. induction s as [|x s IH].
  - rewrite like_percent_nil. etrans; [apply (like_prefix p [] Hp)|].
    cbn [map contains_chars]. by rewrite orb_false_r.
  - cbn [map]. rewrite like_percent_cons. cbn [contains_chars].
    rewrite <- IH. f_equal. apply (like_prefix p (x :: s) Hp).
Qed.

(** [column.ilike(f"%{keyword}%")] is a case-insensitive substring test
    when the keyword has no wildcard. *)
Lemma ilike_icontains keyword column :
  wildcard_free keyword = true ->
  ilike column ("%" +:+ keyword +:+ "%") = icontains keyword column.
Proof.
  intros Hw. unfold ilike, icontains, contains.
  rewrite !chars_lower, !chars_append, !map_app.
  by apply (like_contains (chars keyword) (chars column)).
Qed.

Lemma keyword_condition_in keyword r :
  wildcard_free keyword = true ->
  keyword_condition keyword r = keyword_in keyword r.
Proof.
  intros Hw. unfold keyword_condition, keyword_in.
  by rewrite !ilike_icontains.
Qed.

(** *** The number of pages *)

Lemma pages_ceiling total per_page :
  (0 < per_page)%Z ->
  let pages := ((total + per_page - 1) / per_page)%Z in
  ((pages - 1) * per_page < total <= pages * per_page)%Z
  /\ pages = Qceiling (total # Z.to_pos per_page).
Proof.
  intros Hp pages.
  pose proof (Z.div_mod (total + per_page - 1) per_page ltac:(lia)) as Hd.
  pose proof (Z.mod_pos_bound (total + per_page - 1) per_page Hp) as Hm.
  fold pages in Hd. split; [nia|].
  unfold Qceiling, Qfloor, Qopp. simpl. rewrite Z2Pos.id by done.
  pose proof (Z.div_mod (- total) per_page ltac:(lia)) as Hd'.
  pose proof (Z.mod_pos_bound (- total) per_page Hp) as Hm'.
  nia.
Qed.

End SearchFacts.

Module SearchClaims.

Import Py DatabaseManager SearchFacts.

(** Claim C5.  For a page number and a page size of at least 1,
    [search_articles] returns: as [total] the number of matching rows; as
    [items] the slice of the ordered matching rows that starts at offset
    (page - 1) * per_page and has at most per_page rows; as [pages] the
    ceiling of total / per_page; [has_next] iff page < pages and [has_prev]
    iff page > 1.  With total 45 and per_page 20 there are 3 pages, and
    page 3 has 5 items, no next page and a previous page. *)
Theorem search_articles_pagination table filters page per_page :
  (1 <= page)%Z -> (1 <= per_page)%Z ->
  exists resp,
    search_articles table filters page per_page = Ok resp
    /\ let matching := order_by_desc (apply_filters filters table) in
       let offset := ((page - 1) * per_page)%Z in
       total resp = Z.of_nat (length (apply_filters filters table))
       /\ items resp
          = take (Z.to_nat per_page) (drop (Z.to_nat offset) matching)
       /\ Z.of_nat (length (items resp))
          = Z.min per_page (Z.max 0 (total resp - offset))
       /\ ((pages resp - 1) * per_page < total resp <= pages resp * per_page)%Z
       /\ pages resp = Qceiling (total resp # Z.to_pos per_page)
       /\ has_next resp = (page <? pages resp)%Z
       /\ has_prev resp = (1 <? page)%Z
       /\ (total resp = 45%Z -> per_page = 20%Z ->
           pages resp = 3%Z
           /\ (page = 3%Z ->
               length (items resp) = 5
               /\ has_next resp = false /\ has_prev resp = true)).
Proof.
  intros Hpage Hper. unfold search_articles.
  destruct (Z.eqb_spec per_page 0) as [|_]; [lia|].
  eexists. split; [reflexivity|]. cbn zeta. simpl.
  unfold limit_, offset_.
  destruct (Z.ltb_spec per_page 0) as [|_]; [lia|].
  set (total := Z.of_nat (length (apply_filters filters table))).
  assert (Hlen : length (order_by_desc (apply_filters filters table))
                 = length (apply_filters filters table)).
  { unfold order_by_desc. by rewrite merge_sort_Permutation. }
  assert (Hitems :
    Z.of_nat (length (take (Z.to_nat per_page)
                (drop (Z.to_nat ((page - 1) * per_page))
                   (order_by_desc (apply_filters filters table)))))
    = Z.min per_page (Z.max 0 (total - (page - 1) * per_page))).
  { rewrite length_take, length_drop, Hlen. unfold total. nia. }
  destruct (pages_ceiling total per_page ltac:(lia)) as [Hc1 Hc2].
  split; [done|]. split; [done|]. split; [exact Hitems|].
  split; [exact Hc1|]. split; [exact Hc2|]. split; [done|]. split; [done|].
  intros Ht -> . rewrite Ht in *.
  split; [reflexivity|]. intros ->. split; [|done].
  apply Nat2Z.inj. rewrite Hitems. reflexivity.
Qed.

(** C5 on a table of 45 rows, the third page of 20. *)
Lemma search_articles_pagination_witness :
  let row (i : nat) :=
    {| id := Z.of_nat i; title := "t"; summary := ""; content := "";
       url := ""; image_url := None; source_name := "feed"; author := None;
       published_date := Z.of_nat i; scraped_date := 0;
       threat_level := "low"; confidence_score := 3 # 10; tags := [];
       iocs := []; views := 0; bookmarked := false |} in
  let everything :=
    {| keywords := None; threat_levels := None; sources := None;
       date_from := None; date_to := None; has_iocs := None |} in
  exists resp,
    search_articles (map row (seq 0 45)) everything 3 20 = Ok resp
    /\ total resp = 45%Z /\ pages resp = 3%Z
    /\ length (items resp) = 5
    /\ has_next resp = false /\ has_prev resp = true.
Proof.
  intros row everything.
  destruct (search_articles_pagination (map row (seq 0 45)) everything 3 20)
    as (resp & E & Ht & _ & _ & _ & _ & _ & _ & H45); [lia|lia|].
  exists resp. split; [exact E|].
  assert (Htotal : total resp = 45%Z) by (rewrite Ht; reflexivity).
  destruct (H45 Htotal eq_refl) as [Hp H3].
  destruct (H3 eq_refl) as (Hl & Hn & Hv).
  repeat split; assumption.
Defined.

(** Claim C6 does not hold of [search_articles], in two places.  A keyword
    goes unescaped into the pattern [%keyword%] of [LIKE], so the keyword
    [a_c] selects the article titled [abc], of which it is no substring.
    The IOC-presence filter compares the text in the [iocs] column, which is
    never ['[]'], with ['[]']: asked for articles with IOCs the query returns
    an article that has none, and asked for articles without IOCs it does
    not return it.  So the rows selected are not the rows that satisfy the
    conjunction of the categories as the specification states them. *)
Theorem search_articles_breaks_conjunction :
  let r :=
    {| id := 1; title := "abc"; summary := ""; content := ""; url := "u";
       image_url := None; source_name := "feed"; author := None;
       published_date := 0; scraped_date := 0; threat_level := "low";
       confidence_score := 3 # 10; tags := []; iocs := []; views := 0;
       bookmarked := false |} in
  let by_keyword :=
    {| keywords := Some ["a_c"]; threat_levels := None; sources := None;
       date_from := None; date_to := None; has_iocs := None |} in
  let by_iocs wanted :=
    {| keywords := None; threat_levels := None; sources := None;
       date_from := None; date_to := None; has_iocs := Some wanted |} in
  (keyword_in "a_c" r = false
   /\ exists resp, search_articles [r] by_keyword 1 20 = Ok resp
                   /\ items resp = [r] /\ total resp = 1%Z)
  /\ (iocs_present true r = false
      /\ exists resp, search_articles [r] (by_iocs true) 1 20 = Ok resp
                      /\ items resp = [r] /\ total resp = 1%Z)
  /\ (iocs_present false r = true
      /\ exists resp, search_articles [r] (by_iocs false) 1 20 = Ok resp
                      /\ items resp = [] /\ total resp = 0%Z)
  /\ ~ query_as_stated.
Proof.
  intros r by_keyword by_iocs.
  split; [split; [reflexivity|]|].
  { eexists. split; [vm_compute; reflexivity|]. split; reflexivity. }
  split; [split; [reflexivity|]|].
  { eexists. split; [vm_compute; reflexivity|]. split; reflexivity. }
  split; [split; [reflexivity|]|].
  { eexists. split; [vm_compute; reflexivity|]. split; reflexivity. }
  intros H. destruct (proj1 (H [r] by_keyword r)) as [_ Hs].
  - vm_compute. left.
  - vm_compute in Hs. discriminate.
Qed.

End SearchClaims.

(** * Further properties *)

(** ** The classifier and the analysis endpoint *)

Module AnalyzerExtras.

Import Py Re ThreatAnalyzer AnalyzerFacts IocFacts SearchFacts.

Lemma str_app a b : str (a ++ b) = str a +:+ str b.
Proof.
  unfold str. induction a as [|c a IH]; [reflexivity|].
  cbn [app string_of_list_ascii]. rewrite IH. reflexivity.
Qed.

Lemma lower_append a b : lower (a +:+ b) = lower a +:+ lower b.
Proof. unfold lower. by rewrite chars_append, map_app, str_app. Qed.

Lemma confidence_bounds (count : Z) (n low : Q) :
  (0 < count)%Z -> (0 < n)%Q -> (low * n <= 1)%Q -> (low <= 1)%Q ->
  (0 < Qmin (inject_Z count / n) 1 <= 1
   /\ low <= Qmin (inject_Z count / n) 1)%Q.
Proof.
  intros Hc Hn Hlow Hlow1. split; [by apply Qmin_confidence|].
  apply Q.min_glb; [|assumption].
  apply Qle_shift_div_l; [assumption|].
  eapply Qle_trans; [exact Hlow|].
  unfold Qle, inject_Z. simpl. lia.
Qed.

(** The bounds of what the first-tier rule gives. *)
Lemma classify_bounds title content :
  let result := classify title content in
  (0 < result.2 /\ result.2 <= 1)%Q
  /\ match result.1 with
     | CRITICAL => (1 # 3 <= result.2)%Q
     | HIGH => (1 # 2 <= result.2)%Q
     | MEDIUM => (2 # 3 <= result.2)%Q
     | LOW => result.2 = 3 # 10
     end.
Proof.
  unfold classify.
  set (text := lower (combined title content)). simpl.
  destruct (Z.ltb_spec 0 (tier_count "critical" text)) as [Hc|_].
  { by apply (confidence_bounds _ 3 (1 # 3)). }
  destruct (Z.ltb_spec 0 (tier_count "high" text)) as [Hh|_].
  { by apply (confidence_bounds _ 2 (1 # 2)). }
  destruct (Z.ltb_spec 0 (tier_count "medium" text)) as [Hm|_].
  { by apply (confidence_bounds _ (3 # 2) (2 # 3)). }
  done.
Qed.

(** Property X1.
    The analyzer always answers; the confidence is above 0 and at most 1,
    and it is at least 1/3 for critical, 1/2 for high, 2/3 for medium, and
    exactly 3/10 for low. *)
Theorem confidence_range title content :
  exists level confidence,
    analyze_threat_level init title content = Some (level, confidence)
    /\ (0 < confidence /\ confidence <= 1)%Q
    /\ match level with
       | CRITICAL => (1 # 3 <= confidence)%Q
       | HIGH => (1 # 2 <= confidence)%Q
       | MEDIUM => (2 # 3 <= confidence)%Q
       | LOW => confidence = 3 # 10
       end.
Proof.
  rewrite analyze_init.
  pose proof (classify_bounds title content) as H.
  destruct (classify title content) as [level confidence].
  by exists level, confidence.
Qed.

(** Property X2.
    The classifier and the tag extractor read their input in lower case
    only: two titles and two contents that differ in letter case alone get
    the same level, the same confidence and the same tags. *)
Theorem analysis_ignores_case title content title' content' :
  lower title = lower title' -> lower content = lower content' ->
  analyze_threat_level init title content
  = analyze_threat_level init title' content'
  /\ extract_tags init title content = extract_tags init title' content'.
Proof.
  intros Ht Hc.
  assert (H : lower (combined title content)
              = lower (combined title' content')).
  { unfold combined. by rewrite !lower_append, Ht, Hc. }
  unfold analyze_threat_level, extract_tags. by rewrite H.
Qed.

Lemma analysis_ignores_case_witness :
  analyze_threat_level init "RANSOMWARE Wave" "Zero-Day in ANDROID"
  = analyze_threat_level init "ransomware wave" "zero-day in android"
  /\ extract_tags init "RANSOMWARE Wave" "Zero-Day in ANDROID"
     = extract_tags init "ransomware wave" "zero-day in android".
Proof.
  apply analysis_ignores_case; reflexivity.
Defined.

(** *** The space before the text in [analyze_text] *)

Lemma whole_word_at_prev kw p1 p2 rest :
  word_opt p1 = word_opt p2 ->
  whole_word_at kw p1 rest = whole_word_at kw p2 rest.
Proof.
  intros H. unfold whole_word_at, last_char. rewrite H.
  destruct (last kw); by rewrite ?H.
Qed.

Lemma count_prev kw p1 p2 rest skip :
  word_opt p1 = word_opt p2 ->
  count_whole_words kw skip p1 rest = count_whole_words kw skip p2 rest.
Proof.
  intros H. destruct rest, skip; cbn [count_whole_words];
    by rewrite ?(whole_word_at_prev kw p1 p2).
Qed.

Lemma occurrences_space kw text :
  occurrences kw (" " +:+ text) = occurrences kw text.
Proof.
  unfold occurrences. rewrite chars_append.
  change (chars " " ++ chars text) with (" "%char :: chars text).
  cbn [count_whole_words].
  assert (whole_word_at (chars kw) None (" "%char :: chars text) = false)
    as -> by reflexivity.
  f_equal. by apply count_prev.
Qed.

Lemma tier_count_space level text :
  tier_count level (" " +:+ text) = tier_count level text.
Proof.
  unfold tier_count. f_equal. apply map_ext. intros kw.
  apply occurrences_space.
Qed.

Lemma first_tier_space ts text :
  first_tier ts (" " +:+ text) = first_tier ts text.
Proof.
  induction ts as [|[[name level] n] ts IH]; simpl; [done|].
  by rewrite tier_count_space, IH.
Qed.

(** Property X3.
    [POST /analyze] on a text that is a string answers, and the empty title
    it passes to the analyzer changes nothing: the level and the confidence
    are those of the first-tier rule on the lower-cased text itself, the
    indicators are those of the text as given, each once and in no
    particular order, and the tags are those of the text.  A request
    without ["text"] is analysed as the empty text.  On a text that is no
    string the handler raises [TypeError]. *)
Theorem analyze_text_is_classification request :
  match default (App.JString "") request with
  | App.JString text =>
      let result := first_tier tiers (lower text) in
      exists a,
        App.analyze_text request = App.Answer a
        /\ App.a_threat_level a = ThreatLevel_value result.1
        /\ App.a_confidence_score a = result.2
        /\ (forall x, x ∈ App.a_iocs a <-> x ∈ candidates init text)
        /\ NoDup (App.a_iocs a)
        /\ App.a_tags a = extract_tags init "" text
  | _ => App.analyze_text request = App.Failed App.TypeError
  end.
Proof.
  unfold App.analyze_text.
  destruct (default (App.JString "") request) as [text| | | | |];
    try reflexivity.
  rewrite analyze_init, extract_iocs_init. unfold classify, combined.
  rewrite lower_append.
  change (lower "") with "". change ("" +:+ ?x) with x.
  rewrite lower_append. change (lower " ") with " ".
  rewrite first_tier_space.
  destruct (first_tier tiers (lower text)) as [level confidence].
  eexists. split; [reflexivity|].
  cbn [App.a_threat_level App.a_confidence_score App.a_iocs App.a_tags
       fst snd].
  split; [done|]. split; [done|].
  split; [intros x; apply elem_of_list_set|].
  split; [apply NoDup_list_set|done].
Qed.

End AnalyzerExtras.

(** ** The IOC extractor *)

Module IocExtras.

Import Py Re Hex ReFacts ThreatAnalyzer IocFacts SearchFacts AnalyzerExtras.

(** Every element of [findall]'s list is the value of a match found at a
    position of the text scanned. *)
Lemma scan_inv_pos ic r v : forall rest skip pos prev,
  v ∈ scan ic r skip pos prev rest ->
  exists pre rest' pos' prev' fin,
    rest = pre ++ rest' /\
    match_at ic r pos' prev' rest' = Some fin /\
    v = match_value r (MState pos' prev' rest' []) fin.
Proof.
  induction rest as [|c rest IH]; intros skip pos prev Hin; simpl in Hin.
  - destruct skip; [|by apply elem_of_nil in Hin].
    destruct (match_at ic r pos prev []) as [fin|] eqn:Hm;
      [|by apply elem_of_nil in Hin].
    apply list_elem_of_singleton in Hin. exists [], []. eauto 6.
  - assert (Hlater : forall skip',
      v ∈ scan ic r skip' (S pos) (Some c) rest ->
      exists pre rest' pos' prev' fin,
        c :: rest = pre ++ rest' /\
        match_at ic r pos' prev' rest' = Some fin /\
        v = match_value r (MState pos' prev' rest' []) fin).
    { intros skip' H. apply IH in H as (pre & rest' & H).
      destruct H as (pos' & prev' & fin & -> & H).
      exists (c :: pre), rest'. eauto 6. }
    destruct skip as [|skip]; [|eauto].
    destruct (match_at ic r pos prev (c :: rest)) as [fin|] eqn:Hm; [|eauto].
    apply elem_of_cons in Hin as [->|Hin]; [|eauto].
    exists [], (c :: rest). eauto 6.
Qed.

(** A match of a pattern without groups is a piece of the text. *)
Lemma findall_nogroup_substring ic r text v :
  ngroups r = 0 ->
  v ∈ findall ic r text ->
  exists pre w post,
    v = PStr (str w) /\ lang ic r w /\
    text = str pre +:+ str w +:+ str post.
Proof.
  intros Hg Hin.
  apply scan_inv_pos in Hin
    as (pre & rest & pos & prev & fin & Ht & Hm & ->).
  unfold match_at in Hm.
  apply exec_sound in Hm as (w & st' & Hw & [Hr Hp] & Hk).
  injection Hk as <-. simpl in Hr, Hp.
  exists pre, w, (m_rest st'). split; [|split; [assumption|]].
  - unfold match_value. rewrite Hg. simpl. rewrite Hp, Hr.
    replace (pos + length w - pos) with (length w) by lia.
    by rewrite take_app_length.
  - rewrite <- !str_app, <- Hr, <- Ht. unfold str, chars.
    by rewrite string_of_list_ascii_of_string.
Qed.

(** Property X4.
    Every entry of the result is a detector name, a colon, and a piece of
    the text exactly as it stands there: nothing is lower-cased, trimmed or
    rewritten; the detector is one of [ip], [hash_md5], [hash_sha256],
    [cve] and [email]. *)
Theorem entries_are_verbatim text :
  exists l,
    extract_iocs init text = Some l /\
    forall x, x ∈ l ->
      exists ty value pre post,
        ty ∈ ["ip"; "hash_md5"; "hash_sha256"; "cve"; "email"] /\
        x = ty +:+ ":" +:+ value /\
        text = pre +:+ value +:+ post.
Proof.
  eexists. split; [apply extract_iocs_init|]. intros x Hx.
  destruct (entry_origin _ _ _ (extract_iocs_init text) Hx)
    as (ty & r & m & Hp & Hm & _ & ->).
  assert (Hg : ngroups r = 0) by (pattern_cases Hp; reflexivity).
  destruct (findall_nogroup_substring _ _ _ _ Hg Hm)
    as (pre & w & post & -> & _ & Ht).
  exists ty, (str w), (str pre), (str post).
  split; [|split; [reflexivity|exact Ht]].
  pattern_cases Hp; set_solver.
Qed.

(** Property X5.
    The detectors without a validator keep every match: each match of the
    [hash_md5], [hash_sha256], [cve] and [email] patterns is in the result
    under its detector's name. *)
Theorem unvalidated_matches_are_emitted text ty r m :
  (ty, r) ∈ [ ("hash_md5", hash_pattern 32); ("hash_sha256", hash_pattern 64);
              ("cve", cve_pattern); ("email", email_pattern) ] ->
  PStr m ∈ findall true r text ->
  exists l, extract_iocs init text = Some l /\ ty +:+ ":" +:+ m ∈ l.
Proof.
  intros Hp Hm. eexists. split; [apply extract_iocs_init|].
  apply elem_of_list_set, elem_of_candidates.
  exists ty, r, (PStr m).
  split; [simpl; pattern_cases Hp; set_solver|].
  split; [assumption|]. split; [|reflexivity].
  pattern_cases Hp; reflexivity.
Qed.

Lemma unvalidated_matches_are_emitted_witness :
  exists l,
    extract_iocs init "Patch cve-2021-44228 today" = Some l /\
    "cve:cve-2021-44228" ∈ l.
Proof.
  apply (unvalidated_matches_are_emitted "Patch cve-2021-44228 today"
           "cve" cve_pattern "cve-2021-44228").
  - set_solver.
  - vm_compute. left.
Defined.

(** *** The shape of a hash entry *)

Lemma hex_class x : cls_match true [("a", "f"); ("A", "F"); ("0", "9")]%char x
                    = true -> hex_char x = true.
Proof.
  destruct x as [[] [] [] [] [] [] [] []]; vm_compute; congruence.
Qed.

Lemma hash_lang n w :
  lang true (hash_pattern n) w ->
  length w = n /\ forallb hex_char w = true.
Proof.
  unfold hash_pattern. simpl. intros H.
  repeat match goal with
         | Hs : lang _ (Seq _ _) _ |- _ => inv Hs
         | Hb : lang _ Bnd _ |- _ => inv Hb
         end.
  match goal with Hr : lang _ (Rep _ _ _) _ |- _ =>
    inversion Hr as [| | | | | | |lo hi a ws Hws Hlo Hhi|]; subst end.
  specialize (Hhi _ eq_refl).
  assert (Hc : forallb hex_char (concat ws) = true
               /\ length (concat ws) = length ws).
  { clear -Hws. induction Hws as [|w ws Hw _ [IH1 IH2]]; [done|].
    inv Hw. match goal with H : cls_match _ _ _ = _ |- _ =>
              apply hex_class in H; rename H into Hx end.
    simpl. by rewrite Hx, IH1, IH2. }
  destruct Hc as [Hc1 Hc2]. simpl. rewrite app_nil_r.
  split; [lia|assumption].
Qed.

Lemma length_str w : String.length (str w) = length w.
Proof. unfold str. induction w; simpl; [done|]. by f_equal. Qed.

(** Property X6.
    The value of a [hash_md5] entry has exactly 32 characters and the value
    of a [hash_sha256] entry exactly 64, all of them hexadecimal digits. *)
Theorem hash_entries_have_their_length text l value :
  extract_iocs init text = Some l ->
  ("hash_md5:" +:+ value ∈ l ->
     String.length value = 32 /\ forallb hex_char (chars value) = true)
  /\ ("hash_sha256:" +:+ value ∈ l ->
        String.length value = 64 /\ forallb hex_char (chars value) = true).
Proof.
  intros Hl.
  assert (H : forall ty n,
    (ty, n) ∈ [("hash_md5", 32); ("hash_sha256", 64)] ->
    ty +:+ ":" +:+ value ∈ l ->
    String.length value = n /\ forallb hex_char (chars value) = true).
  { intros ty n Hty Hx.
    destruct (entry_origin _ _ _ Hl Hx) as (ty' & r & m & Hp & Hm & _ & He).
    pattern_cases Hp;
      repeat (apply elem_of_cons in Hty as [Hty|Hty];
              [injection Hty as -> ->|]);
      try (by apply elem_of_nil in Hty);
      try (entry_eq He; discriminate).
    - destruct (findall_nogroup true (hash_pattern 32) _ _ eq_refl Hm)
        as (w & -> & Hw).
      entry_eq He. injection He as ->.
      apply hash_lang in Hw as [Hn Hh].
      by rewrite length_str, chars_str.
    - destruct (findall_nogroup true (hash_pattern 64) _ _ eq_refl Hm)
        as (w & -> & Hw).
      entry_eq He. injection He as ->.
      apply hash_lang in Hw as [Hn Hh].
      by rewrite length_str, chars_str. }
  split; intros Hx.
  - apply (H "hash_md5" 32); [set_solver|exact Hx].
  - apply (H "hash_sha256" 64); [set_solver|exact Hx].
Qed.

Lemma hash_entries_have_their_length_witness :
  String.length "d41d8cd98f00b204e9800998ecf8427e" = 32 /\
  forallb hex_char (chars "d41d8cd98f00b204e9800998ecf8427e") = true.
Proof.
  apply (proj1 (hash_entries_have_their_length
                  "sample d41d8cd98f00b204e9800998ecf8427e seen"
                  ["hash_md5:d41d8cd98f00b204e9800998ecf8427e"]
                  "d41d8cd98f00b204e9800998ecf8427e"
                  ltac:(vm_compute; reflexivity))).
  left.
Defined.

End IocExtras.

(** ** The scrapers *)

Module ScraperExtras.

Import Py Re ThreatAnalyzer AnalyzerFacts IocFacts ScraperManager.
Import ScraperFacts AnalyzerExtras Sources.

Lemma value_is_level l :
  ThreatLevel_value l ∈ ["low"; "medium"; "high"; "critical"].
Proof. destruct l; set_solver. Qed.

Lemma parse_entry_well_formed get_text now source i entry a :
  parse_entry get_text now init source i entry = Some a ->
  well_formed source a.
Proof.
  unfold parse_entry.
  destruct (falsy (strip (get (e_title entry)))) eqn:Ht; [discriminate|].
  destruct (falsy (strip (get (e_link entry)))) eqn:Hu; [discriminate|].
  simpl. rewrite analyze_init. simpl.
  match goal with |- context [classify ?t ?c] =>
    pose proof (classify_bounds t c) as [Hb _];
    destruct (classify t c) as [level confidence] end.
  rewrite extract_iocs_init. simpl. intros [= <-]. simpl.
  eexists _, _, _, _, _, _. repeat split; try reflexivity; try apply Hb.
  - intros E. apply falsy_iff in E. congruence.
  - intros E. apply falsy_iff in E. congruence.
  - apply value_is_level.
Qed.

Lemma parse_entries_elem get_text now source a entries : forall i found,
  a ∈ parse_entries get_text now init source i entries found ->
  a ∈ found \/
  exists j entry, entry ∈ entries /\
    parse_entry get_text now init source j entry = Some a.
Proof.
  induction entries as [|e entries IH]; intros i found H; simpl in H.
  - by left.
  - apply IH in H as [H|(j & entry & Hin & Hp)].
    + destruct (parse_entry get_text now init source i e) as [a'|] eqn:E;
        [|by left].
      apply elem_of_app in H as [H|H]; [by left|].
      apply list_elem_of_singleton in H as ->. right.
      exists i, e. split; [by left|done].
    + right. exists j, entry. split; [by right|done].
Qed.

(** Property X7.
    Every article [scrape_rss_feed] returns has a non-empty title and a
    non-empty URL, a content equal to its summary, the name of its source,
    a publication date, one of the four levels and a confidence above 0 and
    at most 1. *)
Theorem feed_articles_are_well_formed get_text now source feed a :
  a ∈ scrape_rss_feed get_text now init source feed ->
  well_formed source a.
Proof.
  unfold scrape_rss_feed. destruct feed as [[|e entries]|];
    try (by intros ?%elem_of_nil).
  intros H. apply parse_entries_elem in H as [H|(j & entry & _ & H)];
    [by apply elem_of_nil in H|].
  by eapply parse_entry_well_formed.
Qed.

Lemma feed_articles_are_well_formed_witness :
  exists a,
    well_formed "feed" a /\ ad_title a = Some "Patch released".
Proof.
  pose (feed := Some [ {| e_title := Some " Patch released ";
                          e_summary := None;
                          e_link := Some "https://example.org/p";
                          e_published := Some 12%Z |} ]).
  destruct (scrape_rss_feed (fun s => s) (fun _ => 0%Z) init "feed" feed)
    as [|a out] eqn:E; [vm_compute in E; discriminate|].
  exists a. split.
  - apply (feed_articles_are_well_formed (fun s => s) (fun _ => 0%Z)
             "feed" feed).
    rewrite E. left.
  - vm_compute in E. by injection E as <- _.
Defined.

(** *** The page scraper *)

Section Html.

Variable get_text : string -> string.
Variable now : string -> nat -> Z.
Variable urljoin : string -> string -> string.
Variable rss_feed : string -> option (list Entry).
Variable html_page : string -> option Page.

Lemma parse_container_init source base i c :
  usable c = false /\
  parse_container now urljoin init source base i c = None
  \/
  usable c = true /\
  exists a,
    parse_container now urljoin init source base i c = Some a
    /\ ad_title a = h_text <$> c_heading c
    /\ ad_source_name a = Some source.
Proof.
  unfold parse_container, usable.
  destruct (c_heading c) as [h|]; [|by left]. simpl.
  assert (Hgo : forall link,
    exists a,
      ('(threat_level, confidence) ←
         analyze_threat_level init (h_text h) (default "" (c_summary c));
       iocs ← extract_iocs init
                (combined (h_text h) (default "" (c_summary c)));
       Some {| ad_title := Some (h_text h);
               ad_summary := Some (default "" (c_summary c));
               ad_content := Some (default "" (c_summary c));
               ad_url := Some (urljoin base (default "" link));
               ad_image_url :=
                 (fun src => urljoin base (default "" src)) <$> c_img c;
               ad_source_name := Some source;
               ad_author := None;
               ad_published_date := Some (now source i);
               ad_threat_level := Some (ThreatLevel_value threat_level);
               ad_confidence_score := Some confidence;
               ad_tags :=
                 Some (extract_tags init (h_text h)
                         (default "" (c_summary c)));
               ad_iocs := Some iocs |}) = Some a
      /\ ad_title a = Some (h_text h)
      /\ ad_source_name a = Some source).
  { intros link. rewrite analyze_init. simpl.
    destruct (classify _ _) as [level confidence].
    rewrite extract_iocs_init. simpl. eauto. }
  destruct (h_link h) as [link|]; simpl.
  - right. split; [done|]. apply Hgo.
  - destruct (c_link c) as [link|]; simpl.
    + right. split; [done|]. apply Hgo.
    + by left.
Qed.

Lemma parse_containers_titles source base cs : forall i found,
  map ad_title (parse_containers now urljoin init source base i cs found)
  = map ad_title found
    ++ map (fun c => h_text <$> c_heading c) (List.filter usable cs)
  /\ (Forall (fun a => ad_source_name a = Some source) found ->
      Forall (fun a => ad_source_name a = Some source)
        (parse_containers now urljoin init source base i cs found)).
Proof.
  induction cs as [|c cs IH]; intros i found; simpl.
  - by rewrite app_nil_r.
  - destruct (parse_container_init source base i c)
      as [[-> ->]|(-> & a & -> & Ht & Hs)].
    + apply IH.
    + destruct (IH (S i) (found ++ [a])) as [-> IH2]. split.
      * rewrite map_app. simpl. by rewrite Ht, <- app_assoc.
      * intros Hf. apply IH2, Forall_app. split; [done|]. by constructor.
Qed.

Lemma html_source_facts source config :
  let out := scrape_html_source now urljoin html_page init source config in
  length out <= 20
  /\ Forall (fun a => ad_source_name a = Some source) out
  /\ (forall base page,
        url config = Some base -> html_page base = Some page ->
        map ad_title out
        = map (fun c => h_text <$> c_heading c)
              (List.filter usable (take 20 (article_containers page)))).
Proof.
  intros out. unfold out, scrape_html_source.
  destruct (url config) as [base|];
    [|split; [simpl; lia|]; split; [done|discriminate]].
  destruct (html_page base) as [page|] eqn:Hp;
    [|split; [simpl; lia|]; split; [done|];
      intros ? ? [= <-]; by rewrite Hp].
  destruct (parse_containers_titles source base
              (take Settings.MAX_ARTICLES_PER_SOURCE (article_containers page))
              0 []) as [Ht Hs].
  change (map ad_title [] ++ ?x) with x in Ht.
  split; [|split; [by apply Hs|]].
  - rewrite <- (length_map ad_title), Ht, length_map.
    etrans; [apply filter_length_le|].
    rewrite length_take. change Settings.MAX_ARTICLES_PER_SOURCE with 20. lia.
  - intros base' page' [= <-] Hp'. rewrite Hp in Hp'. injection Hp' as <-.
    exact Ht.
Qed.

(** Property X8.
    In page mode an article is built for every one of the first 20
    containers that has a heading and a link, with the text of the heading
    as its title, whether that text is empty or not; a configuration without
    [url] and a page that cannot be fetched give no article. *)
Theorem page_articles_follow_containers source config :
  let out := scrape_html_source now urljoin html_page init source config in
  length out <= 20
  /\ (forall base page,
        url config = Some base -> html_page base = Some page ->
        map ad_title out
        = map (fun c => h_text <$> c_heading c)
              (List.filter usable (take 20 (article_containers page))))
  /\ ((url config = None \/
       exists base, url config = Some base /\ html_page base = None) ->
      out = []).
Proof.
  intros out.
  destruct (html_source_facts source config) as (Hl & _ & Ht).
  split; [exact Hl|]. split; [exact Ht|].
  unfold out, scrape_html_source.
  intros [->|(base & -> & ->)]; reflexivity.
Qed.

(** *** The loop over the sources *)

Lemma scrape_sources_flat_map analyzer sources : forall found,
  scrape_sources get_text now urljoin rss_feed html_page analyzer sources found
  = found ++ flat_map (source_articles get_text now urljoin rss_feed
                         html_page analyzer) sources.
Proof.
  induction sources as [|[key config] sources IH]; intros found; simpl.
  - by rewrite app_nil_r.
  - unfold source_articles at 1. simpl.
    destruct (negb (default true (enabled config))); simpl; [apply IH|].
    by rewrite IH, app_assoc.
Qed.

Lemma rss_source_bound key config :
  length (scrape_rss_source get_text now rss_feed init key config) <= 20
  /\ Forall (fun a => ad_source_name a = Some key)
       (scrape_rss_source get_text now rss_feed init key config).
Proof.
  unfold scrape_rss_source. split.
  - unfold scrape_rss_feed.
    destruct (url config ≫= rss_feed) as [[|e entries]|];
      [simpl; lia| |simpl; lia].
    rewrite <- (length_map ad_url), parse_entries_urls.
    rewrite length_app, !length_map. cbn [length].
    etrans; [apply filter_length_le|]. rewrite length_take.
    change Settings.MAX_ARTICLES_PER_SOURCE with 20. lia.
  - apply Forall_forall. intros a Ha.
    unfold scrape_rss_feed in Ha.
    destruct (url config ≫= rss_feed) as [[|e entries]|];
      try (by apply elem_of_nil in Ha).
    apply parse_entries_elem in Ha as [Ha|(j & entry & _ & Ha)];
      [by apply elem_of_nil in Ha|].
    apply parse_entry_well_formed in Ha.
    destruct Ha as (t & u & sm & lv & cf & d & Ha).
    destruct Ha as (_ & _ & _ & _ & _ & _ & Hs & _). exact Hs.
Qed.

(** Property X9.
    [scrape_all_sources] returns, in the order of the configuration, the
    articles of each source taken alone: a source that is disabled, has no
    [url], or whose request fails adds nothing and takes nothing away from
    the others.  There are at most 20 articles per source, and each article
    carries the key of an enabled source as its source name.  The four
    sources of the configuration are all read as feeds. *)
Theorem sources_are_scraped_independently sources :
  let scrape := scrape_all_sources get_text now urljoin rss_feed html_page
                  init in
  let alone := source_articles get_text now urljoin rss_feed html_page init in
  scrape sources = flat_map alone sources
  /\ (forall before item after,
        sources = before ++ item :: after -> alone item = [] ->
        scrape sources = scrape (before ++ after))
  /\ length (scrape sources) <= 20 * length sources
  /\ (forall a, a ∈ scrape sources ->
        exists key config,
          (key, config) ∈ sources /\ enabled config <> Some false /\
          ad_source_name a = Some key)
  /\ scrape THREAT_SOURCES
     = flat_map (fun item => scrape_rss_source get_text now rss_feed init
                               item.1 item.2) THREAT_SOURCES.
Proof.
  intros scrape alone.
  assert (Hflat : forall l, scrape l = flat_map alone l).
  { intros l. unfold scrape, scrape_all_sources.
    by rewrite scrape_sources_flat_map. }
  assert (Hone : forall item,
            length (alone item) <= 20
            /\ forall a, a ∈ alone item ->
                 enabled item.2 <> Some false
                 /\ ad_source_name a = Some item.1).
  { intros [key config]. unfold alone, source_articles. simpl.
    destruct (enabled config) as [[|]|] eqn:He; simpl;
      try (split; [lia|by intros ? ?%elem_of_nil]);
      (destruct (bool_decide (type config = Some "rss"));
       [destruct (rss_source_bound key config) as [Hl Hs]
       |destruct (html_source_facts key config) as (Hl & Hs & _)];
       (split; [exact Hl|]; intros a Ha; split; [done|];
        rewrite Forall_forall in Hs; by apply Hs)). }
  split; [apply Hflat|]. split; [|split; [|split]]; [| | |apply Hflat].
  - intros before item after -> Hnil.
    by rewrite !Hflat, !flat_map_app; simpl; rewrite Hnil.
  - rewrite Hflat. clear Hflat. induction sources as [|item l IH]; simpl;
      [lia|].
    rewrite length_app. destruct (Hone item) as [Hl _]. lia.
  - intros a. rewrite Hflat, list_elem_of_In, in_flat_map.
    intros ([key config] & Hin & Ha).
    apply list_elem_of_In in Hin, Ha.
    destruct (Hone (key, config)) as [_ H].
    destruct (H a Ha) as [He Hs]. eauto.
Qed.

End Html.

Lemma page_articles_follow_containers_witness :
  let container text :=
    {| c_heading := Some {| h_text := text; h_link := None |};
       c_link := Some (Some "/post"); c_summary := None; c_img := None |} in
  let page := {| articles := []; divs := [container ""; container "News"] |} in
  let config := {| name := None; url := Some "https://example.org";
                   enabled := None; type := Some "html" |} in
  map ad_title
    (scrape_html_source (fun _ _ => 0%Z) String.append (fun _ => Some page)
       init "blog" config)
  = [Some ""; Some "News"].
Proof.
  intros container page config.
  apply (proj1 (proj2 (page_articles_follow_containers (fun _ _ => 0%Z)
                         String.append (fun _ => Some page) "blog" config))
           "https://example.org" page eq_refl eq_refl).
Defined.

End ScraperExtras.

(** ** The store *)

Module StoreExtras.

Import Py DatabaseManager StoreFacts Keys.

Section Engine.

Variable fails : nat -> bool.
Variables py_now sql_now : Z.

Lemma first_by_url_app l1 l2 u :
  first_by_url (l1 ++ l2) u
  = match first_by_url l1 u with
    | Some r => Some r
    | None => first_by_url l2 u
    end.
Proof.
  unfold first_by_url. induction l1 as [|r l1 IH]; simpl; [done|].
  by destruct (String.eqb (url r) u).
Qed.

Lemma first_by_url_absent table u :
  u ∉ map url table <-> first_by_url table u = None.
Proof.
  rewrite first_by_url_Some. destruct (first_by_url table u).
  - split; [intros []; by eexists|done].
  - split; [done|]. by intros _ [? ?].
Qed.

(** A flush that succeeds has written articles with pairwise different
    [url]s, none of which was in the table. *)
Lemma flush_distinct : forall added work k work' k',
  flush fails sql_now work added k = (Ok work', k') ->
  NoDup (map url added) /\ Forall (fun a => url a ∉ map url work) added.
Proof.
  induction added as [|a added IH]; intros work k work' k' H; simpl in H.
  - split; constructor.
  - destruct (fails k); [discriminate|]. unfold insert_row in H.
    destruct (first_by_url work (url a)) eqn:Hf; [discriminate|].
    apply first_by_url_absent in Hf.
    apply IH in H as [Hnd Hall].
    rewrite Forall_forall in Hall.
    assert (Hsplit : forall x, x ∈ added ->
              url x <> url a /\ url x ∉ map url work).
    { intros x Hx. specialize (Hall x Hx).
      rewrite map_app, elem_of_app in Hall. simpl in Hall.
      split; [|tauto]. intros E. apply Hall. right. rewrite E. by left. }
    split.
    + simpl. constructor; [|done].
      intros Hin. apply list_elem_of_In, in_map_iff in Hin as (x & E & Hx).
      apply list_elem_of_In, Hsplit in Hx as [Hx _]. by apply Hx.
    + constructor; [done|]. apply Forall_forall. intros x Hx.
      by apply Hsplit.
Qed.

Lemma next_id_above work r : r ∈ work -> (id r < next_id work)%Z.
Proof.
  unfold next_id. induction work as [|x work IH]; [by intros ?%elem_of_nil|].
  intros [->|H]%elem_of_cons; simpl; [lia|]. specialize (IH H). lia.
Qed.

(** A flush keeps the row ids pairwise different. *)
Lemma flush_ids : forall added work k work' k',
  flush fails sql_now work added k = (Ok work', k') ->
  NoDup (map id work) -> NoDup (map id work').
Proof.
  induction added as [|a added IH]; intros work k work' k' H Hnd; simpl in H.
  - by injection H as <- <-.
  - destruct (fails k); [discriminate|]. unfold insert_row in H.
    destruct (first_by_url work (url a)); [discriminate|].
    apply IH in H; [done|].
    rewrite map_app. apply NoDup_app. split; [done|]. split.
    + intros i Hi [->|[]%elem_of_nil]%elem_of_cons.
      apply list_elem_of_In, in_map_iff in Hi as (r & Hr & Hin).
      apply list_elem_of_In, next_id_above in Hin. simpl in Hr. lia.
    + apply NoDup_singleton.
Qed.

(** The pieces of a successful call that the uniqueness facts need. *)
Lemma save_articles_new table batch n :
  returned (save_articles fails py_now sql_now table batch) = Ok n ->
  exists new,
    table_after (save_articles fails py_now sql_now table batch)
    = table ++ new
    /\ Forall2 (fun a row => exists i, row = stored sql_now i a)
         (map (new_article py_now) (List.filter (is_new table) batch)) new
    /\ NoDup (map url_of (List.filter (is_new table) batch))
    /\ (NoDup (map id table) -> NoDup (map id (table ++ new))).
Proof.
  unfold save_articles.
  destruct (save_loop fails py_now table batch [] 0%Z 0)
    as [[[added n']|e] k] eqn:Hloop; [|discriminate].
  apply save_loop_ok in Hloop as (-> & _ & _ & _ & _).
  change ([] ++ ?l) with l in *.
  unfold commit.
  destruct (flush fails sql_now table _ _) as [[work|e] k'] eqn:Hflush;
    [|discriminate].
  destruct (fails k'); [discriminate|]. simpl. intros _.
  pose proof (flush_distinct _ _ _ _ _ Hflush) as [Hnd _].
  pose proof (flush_ids _ _ _ _ _ Hflush) as Hids.
  apply flush_ok in Hflush as (new & -> & Hnew & _).
  exists new. split; [done|]. split; [done|]. split; [|done].
  rewrite map_map in Hnd. exact Hnd.
Qed.

Lemma is_new_absent table a :
  is_new table a = true -> url_of a ∉ map url table.
Proof.
  unfold is_new, url_of. destruct (ad_url a) as [u|]; [|discriminate]. simpl.
  destruct (first_by_url table u) eqn:Hf; [discriminate|].
  intros _. by apply first_by_url_absent.
Qed.

(** Property X11.
    Whatever the engine does, the rows of the table stay where they are,
    unchanged, with the new rows after them; and if the [url]s of the table
    are pairwise different before the call, they are so after it, and the
    same for the row ids. *)
Theorem save_keeps_rows_and_uniqueness table batch :
  let after :=
    table_after (save_articles fails py_now sql_now table batch) in
  (exists new, after = table ++ new)
  /\ (NoDup (map url table) -> NoDup (map url after))
  /\ (NoDup (map id table) -> NoDup (map id after)).
Proof.
  intros after. unfold after.
  destruct (returned (save_articles fails py_now sql_now table batch))
    as [n|e] eqn:Hr.
  - apply save_articles_new in Hr as (new & -> & Hnew & Hnd & Hids).
    split; [by exists new|]. split; [|done].
    intros Ht. apply stored_urls in Hnew. rewrite map_map in Hnew.
    rewrite map_app, Hnew. apply NoDup_app. split; [done|]. split; [|done].
    intros u Hu Hin.
    apply list_elem_of_In, in_map_iff in Hin as (a & <- & Ha).
    apply filter_In in Ha as [_ Ha]. by apply is_new_absent in Ha.
  - apply save_articles_raise in Hr as ->.
    split; [exists []; by rewrite app_nil_r|done].
Qed.

(** The row stored for an article that was added is found under its
    [url]. *)
Lemma first_of_stored added new x :
  Forall2 (fun a row => exists i, row = stored sql_now i a) added new ->
  NoDup (map url added) -> x ∈ added ->
  exists i, first_by_url new (url x) = Some (stored sql_now i x).
Proof.
  induction 1 as [|a row added new [i ->] _ IH]; intros Hnd Hx.
  - by apply elem_of_nil in Hx.
  - simpl in Hnd. apply NoDup_cons in Hnd as [Hnotin Hnd].
    unfold first_by_url. simpl.
    apply elem_of_cons in Hx as [->|Hx].
    + exists i. by rewrite String.eqb_refl.
    + destruct (String.eqb_spec (url a) (url x)) as [E|_].
      * exfalso. apply Hnotin. rewrite E.
        apply list_elem_of_In, in_map. by apply list_elem_of_In.
      * by apply IH.
Qed.

(** Property X12.
    After a call that returned, every record of the batch is found in the
    table under its [url]: a record whose [url] was there before finds the
    row that was there, untouched; a record whose [url] was new finds its
    own row, with the fields it gave and the defaults for the others. *)
Theorem saved_record_is_found table batch n a u :
  returned (save_articles fails py_now sql_now table batch) = Ok n ->
  a ∈ batch -> ad_url a = Some u ->
  let after :=
    table_after (save_articles fails py_now sql_now table batch) in
  (u ∈ map url table -> first_by_url after u = first_by_url table u)
  /\ (u ∉ map url table ->
      exists i,
        first_by_url after u
        = Some (stored sql_now i (new_article py_now a))).
Proof.
  intros Hr Ha Hu after. unfold after.
  apply save_articles_new in Hr as (new & -> & Hnew & Hnd & _).
  rewrite first_by_url_app. split.
  - intros [row ->]%first_by_url_Some. done.
  - intros Hnot. apply first_by_url_absent in Hnot as Hnone. rewrite Hnone.
    assert (Hin : new_article py_now a
                  ∈ map (new_article py_now)
                      (List.filter (is_new table) batch)).
    { apply list_elem_of_In, in_map, filter_In.
      split; [by apply list_elem_of_In|].
      unfold is_new. by rewrite Hu, Hnone. }
    destruct (first_of_stored _ _ (new_article py_now a) Hnew)
      as [i Hi]; [by rewrite map_map|exact Hin|].
    exists i. simpl in Hi. by rewrite Hu in Hi.
Qed.

(** Property X13.
    Two records of one batch with the same [url], new to the table, make
    the call raise with any engine: neither is stored, nor is any other
    record of the batch. *)
Theorem duplicate_in_batch_stores_nothing table l1 a1 l2 a2 l3 u :
  ad_url a1 = Some u -> ad_url a2 = Some u -> u ∉ map url table ->
  let r := save_articles fails py_now sql_now table
             (l1 ++ a1 :: l2 ++ a2 :: l3) in
  (exists e, returned r = Raise e) /\ table_after r = table.
Proof.
  intros H1 H2 Hu r.
  destruct (returned r) as [n|e] eqn:Hr;
    [|split; [by exists e|by eapply save_articles_raise]].
  exfalso. apply save_articles_new in Hr as (new & _ & _ & Hnd & _).
  apply first_by_url_absent in Hu.
  assert (Hn : forall a, ad_url a = Some u -> is_new table a = true)
    by (intros a E; unfold is_new; by rewrite E, Hu).
  rewrite List.filter_app in Hnd. cbn [List.filter] in Hnd.
  rewrite (Hn a1 H1), List.filter_app in Hnd. cbn [List.filter] in Hnd.
  rewrite (Hn a2 H2), map_app in Hnd.
  apply NoDup_app in Hnd as (_ & _ & Hnd).
  cbn [map] in Hnd. apply NoDup_cons in Hnd as [Hnd _]. apply Hnd.
  rewrite map_app, elem_of_app. right. cbn [map].
  unfold url_of. rewrite H1, H2. by left.
Qed.

End Engine.

Lemma save_loop_reliable py_now table : forall batch added n k,
  Forall (fun a => is_Some (ad_url a)) batch ->
  save_loop reliable py_now table batch added n k
  = (Ok (added ++ map (new_article py_now) (List.filter (is_new table) batch),
         (n + Z.of_nat (length (List.filter (is_new table) batch)))%Z),
     k + length batch).
Proof.
  induction batch as [|a batch IH]; intros added n k Hall.
  - cbn [save_loop List.filter map length].
    by rewrite app_nil_r, Z.add_0_r, Nat.add_0_r.
  - apply Forall_cons in Hall as [[u Hu] Hall].
    cbn [save_loop]. rewrite Hu. cbn [reliable].
    destruct (first_by_url table u) eqn:Hf.
    + assert (is_new table a = false) as Hn
        by (unfold is_new; by rewrite Hu, Hf).
      cbn [List.filter]. rewrite Hn, IH by done.
      f_equal. cbn [length]. lia.
    + assert (is_new table a = true) as Hn
        by (unfold is_new; by rewrite Hu, Hf).
      cbn [List.filter]. rewrite Hn, IH by done.
      cbn [map length]. rewrite <- app_assoc. cbn [app].
      f_equal; [do 2 f_equal; lia|lia].
Qed.

Lemma save_loop_key_error py_now table : forall batch added n k,
  ~ Forall (fun a => is_Some (ad_url a)) batch ->
  exists k', save_loop reliable py_now table batch added n k
             = (Raise KeyError, k').
Proof.
  induction batch as [|a batch IH]; intros added n k Hall; simpl.
  - destruct Hall. constructor.
  - destruct (ad_url a) as [u|] eqn:Hu; [|by eexists]. simpl.
    assert (~ Forall (fun a => is_Some (ad_url a)) batch) as Hrest.
    { intros H. apply Hall. constructor; [by rewrite Hu|done]. }
    destruct (first_by_url table u); by apply IH.
Qed.

Lemma flush_reliable sql_now : forall added work k,
  (NoDup (map url added) /\ Forall (fun a => url a ∉ map url work) added ->
   exists work', flush reliable sql_now work added k
                 = (Ok work', k + length added))
  /\ (~ (NoDup (map url added)
         /\ Forall (fun a => url a ∉ map url work) added) ->
      exists k', flush reliable sql_now work added k
                 = (Raise IntegrityError, k')).
Proof.
  induction added as [|a added IH]; intros work k; simpl.
  - split; [intros _; exists work; by rewrite Nat.add_0_r|].
    intros H. destruct H. split; constructor.
  - unfold insert_row.
    destruct (first_by_url work (url a)) as [row|] eqn:Hf.
    + split; [|by eexists].
      intros [_ Hall]. apply Forall_cons in Hall as [Hall _].
      apply first_by_url_absent in Hall. congruence.
    + apply first_by_url_absent in Hf.
      set (work' := work ++ [stored sql_now (next_id work) a]).
      assert (Hequiv :
        NoDup (map url added)
        /\ Forall (fun x => url x ∉ map url work') added
        <-> NoDup (url a :: map url added)
            /\ Forall (fun x => url x ∉ map url work) (a :: added)).
      { unfold work'. rewrite NoDup_cons, Forall_cons, !Forall_forall.
        split.
        - intros [Hnd Hall]. split; [split; [|done]|split; [done|]].
          + intros Hin.
            apply list_elem_of_In, in_map_iff in Hin as (x & E & Hx).
            apply list_elem_of_In, Hall in Hx. apply Hx.
            rewrite map_app, elem_of_app. right. simpl. rewrite E. by left.
          + intros x Hx Hin. apply (Hall x Hx).
            rewrite map_app, elem_of_app. by left.
        - intros [[Hnotin Hnd] [_ Hall]]. split; [done|].
          intros x Hx. rewrite map_app, elem_of_app. simpl.
          intros [Hin|[E|[]%elem_of_nil]%elem_of_cons];
            [by apply (Hall x Hx)|].
          apply Hnotin. rewrite <- E.
          apply list_elem_of_In, in_map. by apply list_elem_of_In. }
      destruct (IH work' (S k)) as [IHok IHbad]. split.
      * intros H. apply Hequiv in H. destruct (IHok H) as [w Hw].
        exists w. rewrite Hw. f_equal. lia.
      * intros H. apply IHbad. intros H'. by apply H, Hequiv.
Qed.

Lemma save_keyed_distinct py_now sql_now table batch :
  Forall (fun a => is_Some (ad_url a)) batch ->
  NoDup (map url_of (List.filter (is_new table) batch)) ->
  returned (save_articles reliable py_now sql_now table batch)
  = Ok (Z.of_nat (length (List.filter (is_new table) batch))).
Proof.
  intros Hk Hnd. unfold save_articles.
  rewrite save_loop_reliable by done.
  unfold commit. change ([] ++ ?l) with l.
  destruct (flush_reliable sql_now
              (map (new_article py_now) (List.filter (is_new table) batch))
              table (0 + length batch)) as [Hok _].
  destruct Hok as [work ->]; [|reflexivity].
  split; [rewrite map_map; exact Hnd|].
  apply Forall_forall. intros x Hx.
  apply list_elem_of_In, in_map_iff in Hx as (a & <- & Ha).
  apply filter_In in Ha as [_ Ha]. by apply is_new_absent in Ha.
Qed.

(** Property X10.
    With an engine that does not fail, [save_articles] returns exactly when
    every record has a [url] and the [url]s of the records new to the table
    are pairwise different; it then returns the number of those records.
    Otherwise it raises [KeyError] for a missing [url] and
    [IntegrityError] for a repeated one. *)
Theorem save_returns_iff_new_urls_distinct py_now sql_now table batch :
  let r := save_articles reliable py_now sql_now table batch in
  let fresh := List.filter (is_new table) batch in
  let keyed := Forall (fun a => is_Some (ad_url a)) batch in
  (keyed /\ NoDup (map url_of fresh) ->
   returned r = Ok (Z.of_nat (length fresh)))
  /\ (~ keyed -> returned r = Raise KeyError)
  /\ (keyed -> ~ NoDup (map url_of fresh) ->
      returned r = Raise IntegrityError).
Proof.
  intros r fresh keyed. subst r fresh keyed.
  split; [|split]; [|unfold save_articles..].
  - intros [Hk Hnd]. by apply save_keyed_distinct.
  - intros Hk.
    destruct (save_loop_key_error py_now table batch [] 0%Z 0 Hk) as [k ->].
    reflexivity.
  - intros Hk Hnd. rewrite save_loop_reliable by done.
    unfold commit. change ([] ++ ?l) with l.
    destruct (flush_reliable sql_now
                (map (new_article py_now) (List.filter (is_new table) batch))
                table (0 + length batch)) as [_ Hbad].
    destruct Hbad as [k' ->]; [|reflexivity].
    intros [H _]. apply Hnd. rewrite map_map in H. exact H.
Qed.

Lemma save_returns_iff_new_urls_distinct_witness :
  let record u := {| ad_title := Some "t"; ad_summary := None;
                     ad_content := None; ad_url := Some u;
                     ad_image_url := None; ad_source_name := None;
                     ad_author := None; ad_published_date := None;
                     ad_threat_level := None; ad_confidence_score := None;
                     ad_tags := None; ad_iocs := None |} in
  returned (save_articles reliable 7 8 [] [record "u1"; record "u2"])
  = Ok 2%Z.
Proof.
  intros record.
  apply (proj1 (save_returns_iff_new_urls_distinct 7 8 []
                  [record "u1"; record "u2"])).
  split.
  - repeat constructor; by eexists.
  - apply (bool_decide_unpack (NoDup ["u1"; "u2"])). vm_compute. exact I.
Defined.

Lemma saved_record_is_found_witness :
  let record := {| ad_title := Some "Botnet report"; ad_summary := None;
                   ad_content := None; ad_url := Some "https://x.org/b";
                   ad_image_url := None; ad_source_name := Some "feed";
                   ad_author := None; ad_published_date := None;
                   ad_threat_level := None; ad_confidence_score := None;
                   ad_tags := None; ad_iocs := None |} in
  exists i,
    first_by_url (table_after (save_articles reliable 7 8 [] [record]))
      "https://x.org/b"
    = Some (stored 8 i (new_article 7 record)).
Proof.
  intros record.
  apply (proj2 (saved_record_is_found reliable 7 8 [] [record] 1 record
                  "https://x.org/b" eq_refl
                  ltac:(left) eq_refl)).
  by intros ?%elem_of_nil.
Defined.

Lemma duplicate_in_batch_stores_nothing_witness :
  let record t := {| ad_title := Some t; ad_summary := None;
                     ad_content := None; ad_url := Some "u";
                     ad_image_url := None; ad_source_name := None;
                     ad_author := None; ad_published_date := None;
                     ad_threat_level := None; ad_confidence_score := None;
                     ad_tags := None; ad_iocs := None |} in
  let r := save_articles reliable 7 8 [] [record "first"; record "second"] in
  (exists e, returned r = Raise e) /\ table_after r = [].
Proof.
  intros record.
  apply (duplicate_in_batch_stores_nothing reliable 7 8 []
           [] (record "first") [] (record "second") [] "u" eq_refl eq_refl).
  by intros ?%elem_of_nil.
Defined.

(** Property X14.
    The background task never loses what the table holds and stores
    nothing when nothing was scraped; with an engine that does not fail it
    stores every scraped record that is new, provided each has a [url] and
    the new [url]s are pairwise different. *)
Theorem background_task_extends_the_table fails py_now sql_now scraped table :
  let after := App.scrape_all_sources fails py_now sql_now scraped table in
  (exists new, after = table ++ new)
  /\ (scraped = [] -> after = table)
  /\ (Forall (fun a => is_Some (ad_url a)) scraped ->
      NoDup (map url_of (List.filter (is_new table) scraped)) ->
      map url (App.scrape_all_sources reliable py_now sql_now scraped table)
      = map url table
        ++ map url_of (List.filter (is_new table) scraped)).
Proof.
  intros after. unfold after, App.scrape_all_sources.
  split; [|split].
  - destruct scraped as [|a scraped]; [exists []; by rewrite app_nil_r|].
    destruct (returned (save_articles fails py_now sql_now table
                          (a :: scraped))) as [n|e] eqn:Hr.
    + apply save_articles_ok in Hr as (new & -> & _). by exists new.
    + apply save_articles_raise in Hr as ->.
      exists []. by rewrite app_nil_r.
  - by intros ->.
  - intros Hk Hnd. destruct scraped as [|a scraped];
      [by rewrite app_nil_r|].
    assert (Hr : returned (save_articles reliable py_now sql_now table
                             (a :: scraped))
                 = Ok (Z.of_nat (length (List.filter (is_new table)
                                           (a :: scraped))))).
    { by apply (save_keyed_distinct py_now sql_now table (a :: scraped)). }
    apply save_articles_ok in Hr as (new & -> & Hnew & _).
    apply stored_urls in Hnew. by rewrite map_app, Hnew, map_map.
Qed.

End StoreExtras.

(** ** Queries and statistics *)

Module SearchExtras.

Import Py DatabaseManager SearchFacts StoreFacts Paging Statistics.

Lemma filter_length_le_rows (f : ThreatArticle -> bool) l :
  length (List.filter f l) <= length l.
Proof. induction l as [|x l IH]; simpl; [lia|]. destruct (f x); simpl; lia. Qed.

Lemma newer_first_total : Total newer_first.
Proof. intros a b. unfold newer_first. lia. Qed.

Lemma newer_first_trans : Transitive newer_first.
Proof. intros a b c. unfold newer_first. lia. Qed.

Lemma StronglySorted_lookup {A} (R : relation A) l i j a b :
  StronglySorted R l -> i < j -> l !! i = Some a -> l !! j = Some b -> R a b.
Proof.
  intros Hs. revert i j.
  induction Hs as [|x l Hs IH Hall]; intros i j Hij Hi Hj.
  - by rewrite lookup_nil in Hi.
  - destruct j as [|j]; [lia|]. simpl in Hj.
    destruct i as [|i]; simpl in Hi.
    + injection Hi as ->. rewrite Forall_forall in Hall.
      apply Hall. by eapply list_elem_of_lookup_2.
    + apply (IH i j); [lia|done..].
Qed.

Lemma items_sorted table filters page per_page resp :
  search_articles table filters page per_page = Ok resp ->
  StronglySorted newer_first (items resp).
Proof.
  unfold search_articles. destruct (per_page =? 0)%Z; [discriminate|].
  intros [= <-]. simpl. unfold limit_, offset_, order_by_desc.
  pose proof (@StronglySorted_merge_sort _ newer_first _ newer_first_trans
                newer_first_total (apply_filters filters table)) as Hs.
  set (l := merge_sort newer_first (apply_filters filters table)) in *.
  assert (Hd : forall n, StronglySorted newer_first (drop n l)).
  { intros n. rewrite <- (take_drop n l) in Hs.
    by apply StronglySorted_app_1_r in Hs. }
  destruct (per_page <? 0)%Z; [apply Hd|].
  specialize (Hd (Z.to_nat ((page - 1) * per_page))).
  rewrite <- (take_drop (Z.to_nat per_page)) in Hd.
  by apply StronglySorted_app_1_l in Hd.
Qed.

(** Property X15.
    The items of a response are ordered by publication date, newest first:
    an item never has a later date than an item before it. *)
Theorem items_are_newest_first table filters page per_page resp i j a b :
  search_articles table filters page per_page = Ok resp ->
  i < j -> items resp !! i = Some a -> items resp !! j = Some b ->
  (published_date b <= published_date a)%Z.
Proof.
  intros E. apply (StronglySorted_lookup newer_first).
  by eapply items_sorted.
Qed.

Lemma items_are_newest_first_witness :
  let row d :=
    {| id := d; title := "t"; summary := ""; content := ""; url := "";
       image_url := None; source_name := "feed"; author := None;
       published_date := d; scraped_date := 0; threat_level := "low";
       confidence_score := 3 # 10; tags := []; iocs := []; views := 0;
       bookmarked := false |} in
  exists resp,
    search_articles [row 1; row 3; row 2]%Z App.no_filters 1 10 = Ok resp
    /\ items resp !! 0 = Some (row 3%Z)
    /\ items resp !! 2 = Some (row 1%Z)
    /\ (published_date (row 1%Z) <= published_date (row 3%Z))%Z.
Proof.
  intros row.
  destruct (search_articles [row 1; row 3; row 2]%Z App.no_filters 1 10)
    as [resp|e] eqn:E; [|vm_compute in E; discriminate].
  exists resp. split; [reflexivity|].
  assert (Hi : items resp !! 0 = Some (row 3%Z)
               /\ items resp !! 2 = Some (row 1%Z)).
  { pose proof E as E'. vm_compute in E'. injection E' as <-.
    split; reflexivity. }
  destruct Hi as [H0 H2]. split; [exact H0|]. split; [exact H2|].
  exact (items_are_newest_first _ _ _ _ _ 0 2 _ _ E ltac:(lia) H0 H2).
Defined.

(** *** The pages of a query *)

Lemma concat_slices {A} (l : list A) n : forall k,
  concat (map (fun i => take n (drop (i * n) l)) (seq 0 k)) = take (k * n) l.
Proof.
  induction k as [|k IH]; [reflexivity|].
  rewrite seq_S, map_app, concat_app, IH. simpl. rewrite app_nil_r.
  by rewrite take_take_drop, Nat.add_comm.
Qed.

Lemma page_items_slice table filters per_page i :
  (1 <= per_page)%Z ->
  page_items table filters per_page (Z.of_nat (S i))
  = take (Z.to_nat per_page)
         (drop (i * Z.to_nat per_page)
               (order_by_desc (apply_filters filters table))).
Proof.
  intros Hp. unfold page_items, search_articles.
  destruct (Z.eqb_spec per_page 0); [lia|]. simpl.
  unfold limit_, offset_. destruct (Z.ltb_spec per_page 0); [lia|].
  do 2 f_equal. nia.
Qed.

(** Property X16.
    For a page size of at least 1, the pages 1 to [pages], one after the
    other, are the matching rows in order, each row once; every response
    reports the same [pages]; and a page after the last one is empty. *)
Theorem pages_partition_the_result table filters per_page :
  (1 <= per_page)%Z ->
  let matching := order_by_desc (apply_filters filters table) in
  let last := ((Z.of_nat (length (apply_filters filters table))
                + per_page - 1) / per_page)%Z in
  concat (map (page_items table filters per_page) (page_numbers last))
  = matching
  /\ (forall p resp,
        search_articles table filters p per_page = Ok resp ->
        pages resp = last)
  /\ (forall p, (last < p)%Z -> page_items table filters per_page p = []).
Proof.
  intros Hp matching last.
  assert (Hlen : length matching = length (apply_filters filters table)).
  { unfold matching, order_by_desc. by rewrite merge_sort_Permutation. }
  destruct (pages_ceiling (Z.of_nat (length (apply_filters filters table)))
              per_page ltac:(lia)) as [[_ Hc] _].
  fold last in Hc.
  split; [|split].
  - unfold page_numbers. rewrite map_map.
    rewrite (map_ext _ (fun i => take (Z.to_nat per_page)
                                   (drop (i * Z.to_nat per_page) matching)))
      by (intros i; by apply page_items_slice).
    rewrite concat_slices. apply take_ge. rewrite Hlen. nia.
  - intros p resp. unfold search_articles.
    destruct (per_page =? 0)%Z; [discriminate|]. by intros [= <-].
  - intros p Hlast. unfold page_items, search_articles.
    destruct (Z.eqb_spec per_page 0); [lia|]. simpl.
    unfold limit_, offset_. destruct (Z.ltb_spec per_page 0); [lia|].
    fold matching. rewrite drop_ge; [by rewrite take_nil|].
    rewrite Hlen. nia.
Qed.

Lemma pages_partition_the_result_witness :
  let row (i : nat) :=
    {| id := Z.of_nat i; title := "t"; summary := ""; content := "";
       url := ""; image_url := None; source_name := "feed"; author := None;
       published_date := Z.of_nat i; scraped_date := 0;
       threat_level := "low"; confidence_score := 3 # 10; tags := [];
       iocs := []; views := 0; bookmarked := false |} in
  let table := map row (seq 0 7) in
  concat (map (page_items table App.no_filters 3) [1; 2; 3]%Z)
  = order_by_desc table.
Proof.
  intros row table.
  apply (proj1 (pages_partition_the_result table App.no_filters 3
                  ltac:(lia))).
Defined.

(** *** The articles endpoint *)

Lemma in_singleton x k : in_ x [k] = true -> x = k.
Proof.
  unfold in_. simpl. rewrite orb_false_r. apply String.eqb_eq.
Qed.

(** Property X17.
    [GET /articles] answers 422 exactly when [page] is below 1 or [per_page]
    is outside 1..100.  Within these bounds it raises in two cases only: a
    statement fails in the engine, or the offset (page - 1) * per_page is
    above 2^63 - 1, which the driver does not bind ([OverflowError]); it
    does not divide by zero.  Otherwise it answers at most [per_page]
    items, hence at most 100, each of them a row of the table with the level
    and the source that were asked for. *)
Theorem get_articles_answers fails table page per_page level source :
  let p := default 1%Z page in
  let n := default 20%Z per_page in
  let offset := ((p - 1) * n)%Z in
  match App.get_articles fails table page per_page level source with
  | App.Unprocessable => (p < 1 \/ n < 1 \/ 100 < n)%Z
  | App.Failed e =>
      (1 <= p /\ 1 <= n <= 100)%Z
      /\ (e = App.Raised OperationalError
          /\ (fails 0 = true
              \/ (offset <= 2 ^ 63 - 1)%Z /\ fails 1 = true)
          \/ e = App.OverflowError
             /\ fails 0 = false /\ (2 ^ 63 - 1 < offset)%Z)
  | App.Answer resp =>
      (1 <= p /\ 1 <= n <= 100)%Z
      /\ (offset <= 2 ^ 63 - 1)%Z
      /\ fails 0 = false /\ fails 1 = false
      /\ (Z.of_nat (length (items resp)) <= n)%Z
      /\ forall r, r ∈ items resp ->
           r ∈ table
           /\ (forall l, level = Some l -> l <> "" -> threat_level r = l)
           /\ (forall s, source = Some s -> s <> "" -> source_name r = s)
  end.
Proof.
  intros p n offset.
  unfold App.get_articles, App.query_params. fold p n.
  destruct (Z.leb_spec 1 p); [|simpl; lia].
  destruct (Z.leb_spec 1 n); [|simpl; lia].
  destruct (Z.leb_spec n 100); [|simpl; lia].
  cbn [andb]. unfold App.run_search, App.binds. fold offset.
  assert (H63 : (2 ^ 63 = 9223372036854775808)%Z) by reflexivity.
  destruct (fails 0) eqn:F0.
  { split; [lia|]. left. split; [done|]. by left. }
  destruct (Z.leb_spec (- 2 ^ 63) offset); [|unfold offset in *; nia].
  destruct (Z.leb_spec offset (2 ^ 63 - 1)); cbn [andb negb];
    [|split; [lia|]; right; split; [done|]; split; [done|lia]].
  destruct (Z.leb_spec (- 2 ^ 63) n); [|lia].
  destruct (Z.leb_spec n (2 ^ 63 - 1)); [|lia]. cbn [andb negb].
  destruct (fails 1) eqn:F1.
  { split; [lia|]. left. split; [done|]. right. split; [lia|done]. }
  destruct (search_articles table (App.articles_filters level source) p n)
    as [resp|e] eqn:E; cbn [App.of_outcome].
  - split; [lia|]. split; [lia|]. split; [done|]. split; [done|]. split.
    + revert E. unfold search_articles.
      destruct (n =? 0)%Z; [discriminate|]. intros [= <-]. simpl.
      unfold limit_. destruct (Z.ltb_spec n 0); [lia|].
      rewrite length_take. lia.
    + intros r Hr. apply (items_subseteq _ _ _ _ _ E) in Hr.
      apply elem_of_apply_filters in Hr as [Hin Hs].
      split; [done|]. unfold satisfies, App.articles_filters in Hs.
      simpl in Hs. rewrite !andb_true_r in Hs.
      apply andb_true_iff in Hs as [Hl Hsrc]. split.
      * intros l -> Hne. destruct (String.eqb_spec l ""); [done|].
        by apply in_singleton.
      * intros s -> Hne. destruct (String.eqb_spec s ""); [done|].
        by apply in_singleton.
  - revert E. unfold search_articles.
    destruct (Z.eqb_spec n 0); [lia|discriminate].
Qed.

(** *** The empty keyword *)

Lemma like_percent_percent s : like ["%"; "%"]%char s = true.
Proof.
  destruct s; [reflexivity|].
  rewrite like_percent_cons, like_percent_only. reflexivity.
Qed.

Lemma keyword_condition_empty r : keyword_condition "" r = true.
Proof.
  unfold keyword_condition, ilike.
  change (chars (lower ("%" +:+ "" +:+ "%"))) with ["%"; "%"]%char.
  by rewrite like_percent_percent.
Qed.

(** Property X18.
    A keyword list that holds the empty string filters nothing: the query
    selects the rows it would select without any keyword. *)
Theorem empty_keyword_matches_everything table filters kws :
  keywords filters = Some kws -> "" ∈ kws ->
  apply_filters filters table
  = apply_filters (without_keywords filters) table.
Proof.
  intros Hk Hin. unfold apply_filters. apply filter_ext. intros r.
  rewrite !(forallb_conditions keyword_condition) by done.
  unfold satisfies, without_keywords. simpl. rewrite Hk.
  destruct kws as [|kw kws]; [done|].
  assert (existsb (fun keyword => keyword_condition keyword r) (kw :: kws)
          = true) as ->; [|done].
  apply existsb_exists. exists "". split; [by apply list_elem_of_In|].
  apply keyword_condition_empty.
Qed.

Lemma empty_keyword_matches_everything_witness :
  let row t :=
    {| id := 1; title := t; summary := ""; content := ""; url := t;
       image_url := None; source_name := "feed"; author := None;
       published_date := 0; scraped_date := 0; threat_level := "low";
       confidence_score := 3 # 10; tags := []; iocs := []; views := 0;
       bookmarked := false |} in
  let filters :=
    {| keywords := Some ["worm"; ""]; threat_levels := None;
       sources := None; date_from := None; date_to := None;
       has_iocs := None |} in
  apply_filters filters [row "Worm spreads"; row "Quarterly numbers"]
  = [row "Worm spreads"; row "Quarterly numbers"].
Proof.
  intros row filters.
  rewrite (empty_keyword_matches_everything
             [row "Worm spreads"; row "Quarterly numbers"] filters
             ["worm"; ""] eq_refl ltac:(right; left)).
  reflexivity.
Defined.

(** *** Statistics *)

Lemma count_rows_nonneg column k table : (0 <= count_rows column k table)%Z.
Proof. unfold count_rows. lia. Qed.

Lemma count_rows_cons column k r table :
  count_rows column k (r :: table)
  = ((if String.eqb (column r) k then 1 else 0)
     + count_rows column k table)%Z.
Proof.
  unfold count_rows. simpl. destruct (String.eqb (column r) k); simpl; lia.
Qed.

Lemma group_fold_lookup column k : forall table (groups : gmap string Z),
  fold_left (fun groups r =>
               <[column r := (default 0 (groups !! column r) + 1)%Z]> groups)
            table groups !! k
  = match groups !! k with
    | Some v => Some (v + count_rows column k table)%Z
    | None => if (count_rows column k table =? 0)%Z then None
              else Some (count_rows column k table)
    end.
Proof.
  induction table as [|r table IH]; intros groups.
  - simpl. unfold count_rows. simpl.
    destruct (groups !! k); [f_equal; lia|done].
  - cbn [fold_left]. rewrite IH, count_rows_cons.
    pose proof (count_rows_nonneg column k table) as Hc.
    destruct (String.eqb_spec (column r) k) as [->|Hne].
    + rewrite lookup_insert_eq.
      destruct (Z.eqb_spec (1 + count_rows column k table) 0); [lia|].
      destruct (groups !! k) as [v|]; simpl; f_equal; lia.
    + rewrite lookup_insert_ne by done.
      replace (0 + count_rows column k table)%Z
        with (count_rows column k table) by lia.
      reflexivity.
Qed.

Lemma group_count_lookup column k table :
  group_count column table !! k
  = if (count_rows column k table =? 0)%Z then None
    else Some (count_rows column k table).
Proof.
  unfold group_count. rewrite group_fold_lookup. by rewrite lookup_empty.
Qed.

Lemma total_of_level table k page per_page resp :
  k <> "" ->
  search_articles table (App.articles_filters (Some k) None) page per_page
  = Ok resp ->
  total resp = count_rows threat_level k table.
Proof.
  intros Hk. unfold search_articles.
  destruct (per_page =? 0)%Z; [discriminate|]. intros [= <-]. simpl.
  unfold count_rows, apply_filters. do 2 f_equal.
  apply filter_ext. intros r. unfold conditions, App.articles_filters. simpl.
  destruct (String.eqb_spec k ""); [done|]. simpl.
  unfold in_. simpl. by rewrite orb_false_r, andb_true_r.
Qed.

(** Property X19.
    [get_statistics] counts the rows: a level (or a source) is a key of its
    distribution exactly when a row has it, with the number of such rows as
    value, which is also the [total] of a query for that level; and the
    articles with indicators are no more than the articles. *)
Theorem statistics_count_the_rows now table :
  let stats := get_statistics now table in
  total_articles stats = Z.of_nat (length table)
  /\ (forall k,
        threat_distribution stats !! k
        = if (count_rows threat_level k table =? 0)%Z then None
          else Some (count_rows threat_level k table))
  /\ (forall k,
        source_distribution stats !! k
        = if (count_rows source_name k table =? 0)%Z then None
          else Some (count_rows source_name k table))
  /\ (forall k page per_page resp,
        k <> "" ->
        search_articles table (App.articles_filters (Some k) None)
          page per_page = Ok resp ->
        total resp = default 0%Z (threat_distribution stats !! k))
  /\ (0 <= articles_with_iocs stats <= total_articles stats)%Z.
Proof.
  intros stats. split; [reflexivity|].
  split; [intros; apply group_count_lookup|].
  split; [intros; apply group_count_lookup|]. split.
  - intros k page per_page resp Hk E.
    rewrite (total_of_level _ _ _ _ _ Hk E). unfold stats. simpl.
    rewrite group_count_lookup.
    by destruct (Z.eqb_spec (count_rows threat_level k table) 0) as [->|].
  - unfold stats. cbn [articles_with_iocs total_articles get_statistics].
    pose proof (filter_length_le_rows
                  (fun r => negb (String.eqb (iocs_column r) "[]")) table).
    lia.
Qed.

(** Property X20.
    The count [save_articles] returns is the growth of [total_articles]:
    after a call that returned [n] the statistics report [n] articles more,
    and after a call that raised they are what they were. *)
Theorem statistics_follow_save fails py_now sql_now now table batch :
  let r := save_articles fails py_now sql_now table batch in
  match returned r with
  | Ok n =>
      total_articles (get_statistics now (table_after r))
      = (total_articles (get_statistics now table) + n)%Z
  | Raise _ => get_statistics now (table_after r) = get_statistics now table
  end.
Proof.
  intros r. unfold r.
  destruct (returned (save_articles fails py_now sql_now table batch))
    as [n|e] eqn:Hr.
  - apply save_articles_ok in Hr as (new & -> & _ & -> & _).
    simpl. rewrite length_app. lia.
  - by apply save_articles_raise in Hr as ->.
Qed.

(** *** What the query selects *)

(** Property X21.
    The rows [search_articles] selects are the rows of the table that pass
    every condition supplied: one of the keywords matches the title, the
    summary or the content under the pattern [%keyword%] of [LIKE],
    compared without case, which for a keyword without [%] and [_] is a
    case-insensitive substring test; the level is one of [threat_levels];
    the source is one of [sources]; the date is within the range; the text
    in the [iocs] column differs from ['[]'] or equals it, as asked.  Every
    item of a response is such a row, so a [medium] article is in no
    response to a query for the levels [high] and [critical]. *)
Theorem query_selects_by_conditions table filters :
  (forall r, r ∈ apply_filters filters table <->
             r ∈ table
             /\ satisfies keyword_condition iocs_condition filters r = true)
  /\ (forall page per_page resp r,
        search_articles table filters page per_page = Ok resp ->
        r ∈ items resp ->
        r ∈ table
        /\ satisfies keyword_condition iocs_condition filters r = true)
  /\ (forall keyword r,
        wildcard_free keyword = true ->
        keyword_condition keyword r = keyword_in keyword r)
  /\ (forall kws, keywords filters = Some kws ->
        Forall (fun keyword => wildcard_free keyword = true) kws ->
        forall r, satisfies keyword_condition iocs_condition filters r
                  = satisfies keyword_in iocs_condition filters r)
  /\ (forall page per_page resp r,
        threat_levels filters = Some ["high"; "critical"] ->
        threat_level r = "medium" ->
        search_articles table filters page per_page = Ok resp ->
        r ∉ items resp).
Proof.
  assert (Hitems : forall page per_page resp r,
            search_articles table filters page per_page = Ok resp ->
            r ∈ items resp ->
            r ∈ table
            /\ satisfies keyword_condition iocs_condition filters r = true).
  { intros page per_page resp r E Hr.
    apply elem_of_apply_filters. by eapply items_subseteq. }
  split; [intros; apply elem_of_apply_filters|].
  split; [exact Hitems|].
  split; [intros; by apply keyword_condition_in|].
  split.
  - intros kws Hk Hw r.
    rewrite <- (forallb_conditions keyword_condition filters r) by done.
    apply forallb_conditions. intros kws' Hk'.
    rewrite Hk in Hk'. injection Hk' as <-. clear Hk.
    induction Hw as [|kw kws Hkw _ IH]; [done|].
    cbn [existsb]. by rewrite IH, keyword_condition_in.
  - intros page per_page resp r Hl Hm E Hr.
    destruct (Hitems _ _ _ _ E Hr) as [_ Hs].
    unfold satisfies in Hs. rewrite Hl, Hm in Hs.
    rewrite !andb_true_iff in Hs. destruct Hs as [[[[[_ Hs] _] _] _] _].
    vm_compute in Hs. discriminate.
Qed.

(** X21 on a keyword query restricted to the levels [high] and [critical]:
    the [medium] article that has the keyword is not returned. *)
Lemma query_selects_by_conditions_witness :
  let row level :=
    {| id := 1; title := "Ransomware wave"; summary := ""; content := "";
       url := level; image_url := None; source_name := "feed";
       author := None; published_date := 0; scraped_date := 0;
       threat_level := level; confidence_score := 1; tags := [];
       iocs := []; views := 0; bookmarked := false |} in
  let filters :=
    {| keywords := Some ["ransomware"];
       threat_levels := Some ["high"; "critical"]; sources := None;
       date_from := None; date_to := None; has_iocs := None |} in
  exists resp,
    search_articles [row "medium"; row "critical"] filters 1 20 = Ok resp
    /\ row "medium" ∉ items resp.
Proof.
  intros row filters.
  destruct (search_articles [row "medium"; row "critical"] filters 1 20)
    as [resp|e] eqn:E; [|vm_compute in E; discriminate].
  exists resp. split; [reflexivity|].
  apply (proj2 (proj2 (proj2 (proj2
           (query_selects_by_conditions [row "medium"; row "critical"]
              filters)))) 1%Z 20%Z resp (row "medium") eq_refl eq_refl E).
Defined.

(** *** The IOC-presence filter *)

Lemma filter_none_rows (f : ThreatArticle -> bool) l :
  (forall r, f r = false) -> List.filter f l = [].
Proof.
  intros H. induction l as [|r l IH]; simpl; [done|]. by rewrite H.
Qed.

Lemma filter_all_rows (f : ThreatArticle -> bool) l :
  (forall r, f r = true) -> List.filter f l = l.
Proof.
  intros H. induction l as [|r l IH]; simpl; [done|]. by rewrite H, IH.
Qed.

(** Property X22.
    The IOC-presence filter does not look at the indicators.  The text in
    the [iocs] column starts with a quote and never equals ['[]'], so a query
    for the articles with indicators selects what it would select without
    the filter, and a query for the articles without indicators selects
    nothing. *)
Theorem has_iocs_filter_ignores_the_iocs table filters wanted :
  has_iocs filters = Some wanted ->
  apply_filters filters table
  = if wanted then apply_filters (without_has_iocs filters) table else [].
Proof.
  intros Hw. unfold apply_filters.
  assert (H : forall r,
            forallb (fun c => c r) (conditions filters)
            = forallb (fun c => c r) (conditions (without_has_iocs filters))
              && wanted).
  { intros r. unfold conditions, without_has_iocs. cbn [keywords
      threat_levels sources date_from date_to has_iocs]. rewrite Hw.
    rewrite !forallb_app.
    destruct wanted; cbn [forallb]; rewrite iocs_column_text; cbn [negb andb];
      by rewrite ?andb_true_r, ?andb_false_r. }
  destruct wanted.
  - apply filter_ext. intros r. by rewrite H, andb_true_r.
  - apply filter_none_rows. intros r. by rewrite H, andb_false_r.
Qed.

(** X22 on two articles, one with an indicator and one without: asked for
    the articles with indicators the query selects both. *)
Lemma has_iocs_filter_ignores_the_iocs_witness :
  let row u l :=
    {| id := 1; title := "t"; summary := ""; content := ""; url := u;
       image_url := None; source_name := "feed"; author := None;
       published_date := 0; scraped_date := 0; threat_level := "low";
       confidence_score := 3 # 10; tags := []; iocs := l; views := 0;
       bookmarked := false |} in
  let filters :=
    {| keywords := None; threat_levels := None; sources := None;
       date_from := None; date_to := None; has_iocs := Some true |} in
  apply_filters filters [row "a" ["ip:10.0.0.1"]; row "b" []]
  = [row "a" ["ip:10.0.0.1"]; row "b" []].
Proof.
  intros row filters.
  rewrite (has_iocs_filter_ignores_the_iocs
             [row "a" ["ip:10.0.0.1"]; row "b" []] filters true eq_refl).
  reflexivity.
Defined.

(** Property X23.
    [articles_with_iocs] of the statistics is the number of all articles:
    the comparison of the [iocs] column with ['[]'] holds of every row. *)
Theorem articles_with_iocs_counts_every_row now table :
  articles_with_iocs (get_statistics now table)
  = total_articles (get_statistics now table).
Proof.
  cbn [articles_with_iocs total_articles get_statistics].
  rewrite filter_all_rows; [done|].
  intros r. by rewrite iocs_column_text.
Qed.

End SearchExtras.
